(** * Air-quality mock service: generators, catalog queries and chart endpoints

    A shallow embedding of [Kavish/main.py].  Python floats are modelled as
    rationals ([Q]): the forecast, risk and attribution generators compute
    on the exact values, and the observed time series rounds every
    operation to a double ([to_double]).  [datetime] values are naive UTC
    instants counted in microseconds ([Z]); forming the timestamp of an
    observed point raises [OverflowError] outside
    [datetime.min .. datetime.max].  The two ambient effects of the module,
    the wall clock ([datetime.utcnow()]) and the process-wide random source
    ([random.random()]), are threaded explicitly through a [World]. *)

From Stdlib Require Import Ascii String.
From Stdlib Require Import ZArith QArith Qround Qabs Qpower Lqa Lia List Bool.
Import ListNotations.

Local Open Scope Z_scope.

(** ** Numbers *)

(** [round(x)] to an integer, ties to even, on the exact value. *)
Definition round_half_even (q : Q) : Z :=
  let f := Qfloor q in
  match Qcompare (q - inject_Z f) (1 # 2) with
  | Lt => f
  | Gt => f + 1
  | Eq => if Z.even f then f else f + 1
  end.

(** [round(x, 2)]. *)
Definition round2 (q : Q) : Q := (round_half_even (q * 100) # 100)%Q.

(** [max(a, b)] of Python: the first argument unless the second is
    strictly greater. *)
Definition py_max (a b : Q) : Q := if Qle_bool b a then a else b.

(** [sum(xs)]: a left fold from [0]. *)
Definition py_sum (xs : list Q) : Q := fold_left Qplus xs 0%Q.

(** [range(n)] and [range(n, -1, -1)]. *)
Definition range (n : Z) : list Z := map Z.of_nat (seq 0 (Z.to_nat n)).
Definition range_down (n : Z) : list Z := rev (range (n + 1)).

(** [xs[lo:hi]] with Python's treatment of negative and oversized bounds. *)
Definition slice_index (len i : Z) : Z :=
  if i <? 0 then Z.max 0 (len + i) else Z.min i len.

Definition py_slice {A} (xs : list A) (lo hi : Z) : list A :=
  let len := Z.of_nat (length xs) in
  let l := slice_index len lo in
  let h := slice_index len hi in
  firstn (Z.to_nat (h - l)) (skipn (Z.to_nat l) xs).

(** ** Strings *)

Definition upper_ascii (c : ascii) : ascii :=
  let n := nat_of_ascii c in
  if ((97 <=? n) && (n <=? 122))%nat then ascii_of_nat (n - 32) else c.

(** [s.upper()], on the ASCII letters. *)
Fixpoint upper (s : string) : string :=
  match s with
  | EmptyString => EmptyString
  | String c s' => String (upper_ascii c) (upper s')
  end.

(** [s.startswith(p)]. *)
Definition startswith (s p : string) : bool := String.prefix p s.

(** An [Optional[str]] under [if region:] and [x or default]: [None] and the
    empty string are both falsy, so only a non-empty string counts. *)
Definition truthy (o : option string) : option string :=
  match o with
  | Some s => if String.eqb s EmptyString then None else Some s
  | None => None
  end.

(** ** Time *)

Definition datetime := Z.
Definition HOUR : Z := 3600000000.
Definition timedelta (hours : Z) : Z := hours * HOUR.

(** [datetime.min] and [datetime.max]: the first microsecond of year 1
    and the last one of year 9999, counted from the Unix epoch. *)
Definition datetime_min : datetime := -62135596800000000.
Definition datetime_max : datetime := 253402300799999999.

Definition representable (t : Z) : bool :=
  (datetime_min <=? t) && (t <=? datetime_max).

(** [timedelta(hours=h)] keeps a day count of magnitude at most
    999999999. *)
Definition timedelta_ok (hours : Z) : bool :=
  (-999999999 <=? hours / 24) && (hours / 24 <=? 999999999).

(** [ts.isoformat()]: the text form of an instant.  Only the instant it
    denotes matters here. *)
Inductive isotext : Type := isoformat (t : datetime).

(** ** The world: clock and random source *)

Record World : Type := mkWorld {
  utc : nat -> datetime;   (* k-th reading of datetime.utcnow() *)
  reads : nat;             (* readings taken so far *)
  rnd : nat -> Q;          (* k-th value of random.random() *)
  draws : nat              (* values drawn so far *)
}.

Inductive exn : Type := ZeroDivisionError | ValueError | OverflowError.

Inductive result (A : Type) : Type :=
| Ok (a : A)
| Raise (e : exn).
Arguments Ok {A} a.
Arguments Raise {A} e.

Definition M (A : Type) : Type := World -> result A * World.

Definition ret {A} (a : A) : M A := fun w => (Ok a, w).

Definition bind {A B} (m : M A) (k : A -> M B) : M B :=
  fun w => match m w with
           | (Ok a, w') => k a w'
           | (Raise e, w') => (Raise e, w')
           end.

Definition raise {A} (e : exn) : M A := fun w => (Raise e, w).

Notation "x <- m ;; k" := (bind m (fun x => k))
  (at level 61, m at next level, right associativity).

Definition utcnow : M datetime :=
  fun w => (Ok (utc w (reads w)),
            mkWorld (utc w) (S (reads w)) (rnd w) (draws w)).

Definition random : M Q :=
  fun w => (Ok (rnd w (draws w)),
            mkWorld (utc w) (reads w) (rnd w) (S (draws w))).

(** [random.uniform(a, b)] is [a + (b - a) * random()]. *)
Definition uniform (a b : Q) : M Q :=
  u <- random ;; ret (a + (b - a) * u)%Q.

(** [a / b] on floats. *)
Definition py_div (a b : Q) : M Q :=
  if Qeq_bool b 0 then raise ZeroDivisionError else ret (a / b)%Q.

(** [timedelta(hours=h)], which raises when the day count is too large. *)
Definition py_timedelta (hours : Z) : M Z :=
  if timedelta_ok hours then ret (timedelta hours) else raise OverflowError.

(** [t - d] on a [datetime] and a [timedelta], which raises when the
    result falls outside [datetime.min .. datetime.max]. *)
Definition datetime_sub (t : datetime) (d : Z) : M datetime :=
  if representable (t - d) then ret (t - d) else raise OverflowError.

(** A [for] loop that appends one item per element. *)
Fixpoint for_each {A B} (f : A -> M B) (xs : list A) : M (list B) :=
  match xs with
  | [] => ret []
  | x :: xs' => b <- f x ;; bs <- for_each f xs' ;; ret (b :: bs)
  end.

(** [max(xs, key=key)]: the first element whose key is not exceeded. *)
Definition max_by {A} (key : A -> Q) (x : A) (xs : list A) : A :=
  fold_left (fun best y => if Qle_bool (key y) (key best) then best else y) xs x.

(** ** Data model *)

Module Sensor.
Record t : Type := mk { pollutant : string; unit : string; sensor_id : string }.
End Sensor.

Module Station.
Record t : Type := mk {
  station_id : string;
  name : string;
  lat : Q;
  lon : Q;
  region : string;
  tags : list string;
  sensors : option (list Sensor.t)
}.
End Station.

Module ForecastPoint.
Record t : Type := mk {
  ts : datetime;
  value : Q;
  ci_lower : Q;
  ci_upper : Q;
  model_version : string
}.
End ForecastPoint.

Module ForecastResponse.
Record t : Type := mk {
  station_id : string;
  pollutant : string;
  units : string;
  horizon : string;
  forecasts : list ForecastPoint.t
}.
End ForecastResponse.

Module TimeSeriesPoint.
Record t : Type := mk { ts : datetime; value : Q; qa_flag : string }.
End TimeSeriesPoint.

Module RiskScore.
Record t : Type := mk {
  pollutant : string;
  score_0_100 : Q;
  category : string;
  threshold_used : Q
}.
End RiskScore.

Module AttributionBreakdown.
Record t : Type := mk { source : string; contribution_percent : Q; value : Q }.
End AttributionBreakdown.

Module AttributionResponse.
Record t : Type := mk {
  pollutant : string;
  total : Q;
  breakdown : list AttributionBreakdown.t
}.
End AttributionResponse.

Module AlertRecord.
Record t : Type := mk {
  alert_id : string;
  station_id : string;
  pollutant : string;
  threshold : Q;
  observed_value : Q;
  ts : datetime;
  status : string
}.
End AlertRecord.

(** ** Mock data (in-memory) *)

Definition _STATIONS : list Station.t :=
  [ Station.mk "ST-DEL-001" "Delhi - ITO" (286353 # 10000) (7722496 # 100000)
      "Delhi NCR" ["urban"%string]
      (Some [Sensor.mk "PM2.5" "ug/m3" "S1"; Sensor.mk "NO2" "ppb" "S2"]);
    Station.mk "ST-DEL-002" "Gurgaon - Sector 14" (284674 # 10000) (770266 # 10000)
      "Delhi NCR" ["suburban"%string]
      (Some [Sensor.mk "PM2.5" "ug/m3" "S3"]) ].

(** The seeded alert is stamped with the clock reading taken when the
    module is loaded. *)
Definition _ALERTS (loaded_at : datetime) : list AlertRecord.t :=
  [ AlertRecord.mk "A-001" "ST-DEL-001" "PM2.5" 60 82 loaded_at "active" ].

(** ** Generators *)

Definition _iso_now_plus (hours : Z) : M datetime :=
  now <- utcnow ;; ret (now + timedelta hours).

Section Generators.

(** [math.sin], which has no rational closed form, is left abstract. *)
Variable math_sin : Q -> Q.

Definition forecast_base (pollutant : string) : Q :=
  if startswith (upper pollutant) "PM" then 80 else 30.

Definition forecast_point (base : Q) (h : Z) : M ForecastPoint.t :=
  ts <- _iso_now_plus h ;;
  r <- random ;;
  let noise := ((math_sin (inject_Z h / 6) + r * (6 # 10)) * 10)%Q in
  let val := py_max 0 (round2 (base + noise)) in
  ret (ForecastPoint.mk ts val
         (py_max 0 (round2 (val - 8))) (round2 (val + 8)) "mock-v0.3").

Definition generate_forecasts (station_id pollutant : string) (hours : Z)
  : M (list ForecastPoint.t) :=
  let base := forecast_base pollutant in
  for_each (forecast_point base) (range hours).

End Generators.

Section Observed.

(** Rounding of a real number to the nearest double, which every float
    operation applies to its exact result; left abstract. *)
Variable to_double : Q -> Q.

(** [round(40 + r*80, 2)] on doubles: the product and the sum are each
    rounded to a double, and [round] returns the double nearest to the
    two-decimal rounding of its argument. *)
Definition observed_value (r : Q) : Q :=
  to_double (round2 (to_double (40 + to_double (r * 80)))).

Definition timeseries_point (h : Z) : M TimeSeriesPoint.t :=
  now <- utcnow ;;
  d <- py_timedelta h ;;
  ts <- datetime_sub now d ;;
  r <- random ;;
  let val := observed_value r in
  ret (TimeSeriesPoint.mk ts val "good").

Definition generate_timeseries (station_id : option string) (pollutant : string)
    (hours : Z) : M (list TimeSeriesPoint.t) :=
  for_each timeseries_point (range_down hours).

End Observed.

Definition risk_category (score : Q) : string :=
  if Qlt_le_dec score 33 then "Low"
  else if Qlt_le_dec score 66 then "Moderate" else "High".

Definition risk_score (pollutant : string) : M RiskScore.t :=
  u <- uniform 10 90 ;;
  let score := round2 u in
  let cat := risk_category score in
  let threshold := if startswith pollutant "PM" then 50%Q else 40%Q in
  ret (RiskScore.mk pollutant score cat threshold).

Definition generate_risk_scores (region : string) : M (list RiskScore.t) :=
  for_each risk_score ["PM2.5"; "PM10"; "NO2"; "O3"]%string.

Definition attribution_sources : list string :=
  ["Traffic"; "Industry"; "Construction"; "Residential"; "Natural"]%string.

Definition attribution_entry (total : Q) (sv : string * Q)
  : M AttributionBreakdown.t :=
  let (s, v) := sv in
  q <- py_div v total ;;
  let p := round2 (q * 100) in
  q' <- py_div v total ;;
  ret (AttributionBreakdown.mk s p (round2 (q' * 100))).

(** The body of [generate_attribution] once the magnitudes are drawn. *)
Definition attribution_of (pollutant : string) (vals : list Q)
  : M AttributionResponse.t :=
  let total := py_sum vals in
  breakdown <- for_each (attribution_entry total)
                 (combine attribution_sources vals) ;;
  ret (AttributionResponse.mk pollutant (round2 total) breakdown).

Definition generate_attribution (pollutant : string) : M AttributionResponse.t :=
  vals <- for_each (fun _ : string => uniform 10 40) attribution_sources ;;
  attribution_of pollutant vals.

(** ** API: core endpoints *)

Inductive http_result (A : Type) : Type :=
| Found (a : A)
| HTTPException (status_code : Z) (detail : string).
Arguments Found {A} a.
Arguments HTTPException {A} status_code detail.

Section Catalog.

(** The module-level collections the endpoints read. *)
Variable stations : list Station.t.
Variable alerts : list AlertRecord.t.

Definition list_stations (region : option string) (limit offset : Z)
  : list Station.t :=
  let results :=
    match truthy region with
    | Some r => filter (fun s => String.eqb (Station.region s) r) stations
    | None => stations
    end in
  py_slice results offset (offset + limit).

Definition get_station (station_id : string) : http_result Station.t :=
  match find (fun s => String.eqb (Station.station_id s) station_id) stations with
  | Some s => Found s
  | None => HTTPException 404 "station not found"
  end.

Definition list_alerts (region : option string) (since : option datetime)
  : list AlertRecord.t :=
  let out :=
    match truthy region with
    | Some r =>
        filter
          (fun a =>
             existsb
               (fun s => String.eqb (Station.region s) r
                         && String.eqb (Station.station_id s)
                              (AlertRecord.station_id a))
               stations)
          alerts
    | None => alerts
    end in
  match since with
  | Some t => filter (fun a => t <=? AlertRecord.ts a) out
  | None => out
  end.

End Catalog.

Definition horizon_hours (horizon : string) : Z :=
  if String.eqb horizon "7d" then 168
  else if String.eqb horizon "72h" then 72 else 24.

Definition units_of (pollutant : string) : string :=
  if startswith pollutant "PM" then "ug/m3" else "ppb".

Section Forecasts.

Variable math_sin : Q -> Q.

(** [station_id or _STATIONS[0].station_id]; the seeded collection is
    not empty, so the index never fails. *)
Definition default_station (station_id : option string) : string :=
  match truthy station_id with
  | Some s => s
  | None => match _STATIONS with
            | s :: _ => Station.station_id s
            | [] => EmptyString
            end
  end.

Definition get_forecasts (station_id : option string) (pollutant horizon : string)
  : M ForecastResponse.t :=
  let st := default_station station_id in
  let hours := horizon_hours horizon in
  forecasts <- generate_forecasts math_sin st pollutant hours ;;
  ret (ForecastResponse.mk st pollutant (units_of pollutant) horizon forecasts).

End Forecasts.

Definition get_attribution (station_id : option string) (pollutant window : string)
  : M AttributionResponse.t :=
  generate_attribution pollutant.

(** ** Further endpoints of the query service *)

Module TimeSeriesResponse.
Record t : Type := mk {
  station_id : string;
  pollutant : string;
  units : string;
  series : list TimeSeriesPoint.t
}.
End TimeSeriesResponse.

Module RiskSummaryResponse.
Record t : Type := mk {
  region : string;
  timestamp : datetime;
  risk_scores : list RiskScore.t
}.
End RiskSummaryResponse.

(** ["h" in s] for a one-character needle. *)
Fixpoint contains_char (c : ascii) (s : string) : bool :=
  match s with
  | EmptyString => false
  | String d s' => Ascii.eqb d c || contains_char c s'
  end.

(** [s.replace("h", "")] for a one-character pattern: every occurrence
    is dropped. *)
Fixpoint remove_char (c : ascii) (s : string) : string :=
  match s with
  | EmptyString => EmptyString
  | String d s' =>
      if Ascii.eqb d c then remove_char c s' else String d (remove_char c s')
  end.

Section Timeseries.

(** The built-in [int(s)] on strings is left abstract; [None] stands for
    the [ValueError] it raises on text that is not an integer. *)
Variable py_int : string -> option Z.

(** Rounding to the nearest double, as in [generate_timeseries]. *)
Variable to_double : Q -> Q.

Definition window_hours (window : string) : M Z :=
  if contains_char "h" window
  then match py_int (remove_char "h" window) with
       | Some n => ret n
       | None => raise ValueError
       end
  else ret 48.

Definition get_timeseries (station_id : option string) (pollutant window : string)
  : M TimeSeriesResponse.t :=
  let st := default_station station_id in
  hours <- window_hours window ;;
  series <- generate_timeseries to_double (Some st) pollutant hours ;;
  ret (TimeSeriesResponse.mk st pollutant (units_of pollutant) series).

End Timeseries.

Definition get_risk_summary (region : option string) : M RiskSummaryResponse.t :=
  let r := match truthy region with
           | Some s => s
           | None => "Delhi NCR"%string
           end in
  ts <- utcnow ;;
  risk_scores <- generate_risk_scores r ;;
  ret (RiskSummaryResponse.mk r ts risk_scores).

(** ** Visualization endpoints

    An image is determined by the arguments of the drawing calls that
    produce it; the model keeps those arguments in place of the encoded
    bytes.  Angles are kept in degrees. *)

Module LinePlot.
Record t : Type := mk {
  x : list datetime; y : list Q; title : string; y_label : string }.
End LinePlot.

Module LineDoc.
Record t : Type := mk {
  x : list isotext; y : list Q; type : string; mode : string;
  name : string; title : string; xaxis : string; yaxis : string }.
End LineDoc.

Module Dial.
Record t : Type := mk {
  wedges : list (Q * Q * string);   (* theta1, theta2, facecolor *)
  needle : Q;                       (* needle angle *)
  text : Z;                         (* the value printed under the hub *)
  title : string }.
End Dial.

Module DialDoc.
Record t : Type := mk {
  value : Q; label : string; low : Q; med : Q; high : Q; units : string }.
End DialDoc.

Module Bar.
Record t : Type := mk {
  segments : list (Q * Q * string);   (* left, width, source of the label *)
  title : string }.
End Bar.

Module BarDoc.
Record t : Type := mk {
  x : list Q; y : list string; name : list string; title : string }.
End BarDoc.

Definition _line_plot_png (x : list datetime) (y : list Q) (title y_label : string)
  : LinePlot.t :=
  LinePlot.mk x y title y_label.

Section LineChart.

(** Rounding to the nearest double, as in [generate_timeseries]. *)
Variable to_double : Q -> Q.

Definition viz_timeseries_png (region pollutant : string) (hours : Z)
  : M LinePlot.t :=
  series <- generate_timeseries to_double None pollutant hours ;;
  let x := map TimeSeriesPoint.ts series in
  let y := map TimeSeriesPoint.value series in
  ret (_line_plot_png x y (pollutant ++ " timeseries — " ++ region) "µg/m³").

Definition viz_timeseries_json (region pollutant : string) (hours : Z)
  : M LineDoc.t :=
  series <- generate_timeseries to_double None pollutant hours ;;
  let x := map (fun p => isoformat (TimeSeriesPoint.ts p)) series in
  let y := map TimeSeriesPoint.value series in
  ret (LineDoc.mk x y "scatter" "lines+markers" pollutant
         (pollutant ++ " Time Series (" ++ region ++ ")") "Time" "µg/m³").

End LineChart.

Definition dial_sectors : list (Q * Q * string) :=
  [ (0, 33, "#2ca02c"); (33, 66, "#ffcc00"); (66, 100, "#d62728") ]%Q%string.

Definition _risk_dial_png (value_pct : Q) (title : string) : Dial.t :=
  let norm := fun v : Q => (180 * (v / 100))%Q in
  let wedges :=
    map (fun s : Q * Q * string =>
           let '(a, b, color) := s in ((180 - norm b)%Q, (180 - norm a)%Q, color))
        dial_sectors in
  let theta := (180 - norm value_pct)%Q in
  Dial.mk wedges theta (round_half_even value_pct) title.

Definition viz_risk_dial_png (region : string) : M Dial.t :=
  scores <- generate_risk_scores region ;;
  match map RiskScore.score_0_100 scores with
  | [] => raise ValueError
  | v :: vs =>
      let max_score := max_by (fun v => v) v vs in
      ret (_risk_dial_png max_score ("Risk (top) — " ++ region))
  end.

Definition viz_risk_dial_json (region : string) : M DialDoc.t :=
  scores <- generate_risk_scores region ;;
  match scores with
  | [] => raise ValueError
  | s :: ss =>
      let top := max_by RiskScore.score_0_100 s ss in
      ret (DialDoc.mk (RiskScore.score_0_100 top) (RiskScore.pollutant top)
             33 66 100 "score")
  end.

(** The running [left] offset of the stacked bar. *)
Fixpoint stack (left : Q) (items : list (string * Q)) : list (Q * Q * string) :=
  match items with
  | [] => []
  | (s, v) :: rest => (left, v, s) :: stack (left + v)%Q rest
  end.

Definition _attribution_png (breakdown : list AttributionBreakdown.t)
    (title : string) : Bar.t :=
  let sources := map AttributionBreakdown.source breakdown in
  let vals := map AttributionBreakdown.contribution_percent breakdown in
  Bar.mk (stack 0 (combine sources vals)) title.

Definition viz_attribution_png (pollutant : string) : M Bar.t :=
  attr <- generate_attribution pollutant ;;
  ret (_attribution_png (AttributionResponse.breakdown attr)
         ("Source Attribution — " ++ pollutant)).

Definition viz_attribution_json (pollutant : string) : M BarDoc.t :=
  attr <- generate_attribution pollutant ;;
  let b := AttributionResponse.breakdown attr in
  ret (BarDoc.mk (map AttributionBreakdown.contribution_percent b) [pollutant]
         (map AttributionBreakdown.source b) ("Attribution — " ++ pollutant)).

(** * Specification vocabulary

    Predicates and reference definitions used to state the properties, and
    the pure item each loop body appends. *)

(** Values with at most two decimals. *)
Definition is_cent (q : Q) : Prop := exists k : Z, (q == k # 100)%Q.

(** The items appended by the loop, one world step per element. *)
Fixpoint trace {A B} (g : A -> World -> B) (step : World -> World)
    (xs : list A) (w : World) : list B :=
  match xs with
  | [] => []
  | x :: xs' => g x w :: trace g step xs' (step w)
  end.

(** The world after [r] further clock readings and [d] further draws. *)
Definition advance (r d : nat) (w : World) : World :=
  mkWorld (utc w) (r + reads w) (rnd w) (d + draws w).

(** One iteration of a loop that reads the clock once and draws once. *)
Definition tick (w : World) : World := advance 1 1 w.

(** One call of [random.random()]. *)
Definition drew (w : World) : World := advance 0 1 w.

(** The random source honours the contract of [random.random()]. *)
Definition valid_random (w : World) : Prop :=
  forall k : nat, (0 <= rnd w k /\ rnd w k < 1)%Q.

(** The clock never runs backwards. *)
Definition monotone_clock (w : World) : Prop :=
  forall k : nat, utc w k <= utc w (S k).

(** ** Sample inputs

    A sample oscillation term (the Taylor polynomial of the sine up to
    degree five) and two sample worlds, used to run the generators on
    concrete inputs.  The theorems hold for every [math_sin]. *)

Definition sample_sin (x : Q) : Q :=
  (x - x * x * x / 6 + x * x * x * x * x / 120)%Q.

Definition T0 : datetime := 1700000000000000.

(** A clock that gains a microsecond per reading, and draws cycling
    through [0.0, 0.1, ..., 0.9]. *)
Definition sample_world : World :=
  mkWorld (fun k => T0 + Z.of_nat k) 0 (fun k => Z.of_nat (k mod 10) # 10) 0.

(** The same random source under a clock that stands still. *)
Definition frozen_world : World :=
  mkWorld (fun _ => T0) 0 (fun k => Z.of_nat (k mod 10) # 10) 0.

(** The point appended at hour offset [h] in world [w]. *)
Definition forecast_item (math_sin : Q -> Q) (base : Q) (h : Z) (w : World)
  : ForecastPoint.t :=
  let noise := ((math_sin (inject_Z h / 6) + rnd w (draws w) * (6 # 10)) * 10)%Q in
  let val := py_max 0 (round2 (base + noise)) in
  ForecastPoint.mk (utc w (reads w) + timedelta h) val
    (py_max 0 (round2 (val - 8))) (round2 (val + 8)) "mock-v0.3".

(** The timestamps the specification announces for a forecast taken at
    [now]: [now + h] hours for [h = 0 .. N-1]. *)
Definition hourly_from (now : datetime) (N : Z) : list datetime :=
  map (fun h => now + timedelta h) (range N).

(** What the specification asks of one forecast point. *)
Definition bracketed (pt : ForecastPoint.t) : Prop :=
  (0 <= ForecastPoint.ci_lower pt)%Q
  /\ (ForecastPoint.ci_lower pt <= ForecastPoint.value pt)%Q
  /\ (ForecastPoint.value pt <= ForecastPoint.ci_upper pt)%Q.

(** The band is the value shifted by eight units either way, the lower
    end floored at zero. *)
Definition band_of_eight (pt : ForecastPoint.t) : Prop :=
  (0 <= ForecastPoint.value pt)%Q
  /\ (ForecastPoint.ci_upper pt == ForecastPoint.value pt + 8)%Q
  /\ (ForecastPoint.ci_lower pt == py_max 0 (ForecastPoint.value pt - 8))%Q.

(** The point appended at hour offset [h] in world [w], when its
    timestamp can be formed. *)
Definition timeseries_item (to_double : Q -> Q) (h : Z) (w : World)
  : TimeSeriesPoint.t :=
  TimeSeriesPoint.mk (utc w (reads w) - timedelta h)
    (observed_value to_double (rnd w (draws w))) "good".

(** The timestamp [now - timedelta(hours=h)] can be formed. *)
Definition stamp_ok (now : datetime) (h : Z) : bool :=
  timedelta_ok h && representable (now - timedelta h).

(** Every timestamp of a series over [hours] hours can be formed. *)
Definition span_representable (hours : Z) (w : World) : Prop :=
  forall i : nat, (i < Z.to_nat (hours + 1))%nat ->
    stamp_ok (utc w (i + reads w)) (hours - Z.of_nat i) = true.

(** What rounding to the nearest double guarantees: it keeps the order,
    leaves integers of magnitude up to [2^53] alone, and moves a value of
    magnitude at most 1024 by at most [1024 * 2^-53 = 2^-43]. *)
Record double_rounding (rn : Q -> Q) : Prop := {
  rn_monotone : forall p q : Q, (p <= q)%Q -> (rn p <= rn q)%Q;
  rn_integer : forall n : Z,
    -9007199254740992 <= n <= 9007199254740992 -> (rn (inject_Z n) == inject_Z n)%Q;
  rn_near : forall q : Q,
    (Qabs q <= 1024)%Q -> (Qabs (rn q - q) <= 1 # 8796093022208)%Q
}.

(** Powers of two with an integer exponent. *)
Definition pow2 (e : Z) : Q :=
  if 0 <=? e then inject_Z (2 ^ e) else (1 # Z.to_pos (2 ^ (- e)))%Q.

(** [floor (log2 q)] for a positive [q]. *)
Definition binade (q : Q) : Z :=
  let k := Z.log2 (Qnum q) - Z.log2 (Zpos (Qden q)) in
  if Qle_bool (pow2 k) q then k else k - 1.

(** A positive [q] with its significand rounded to 53 bits, ties to
    even. *)
Definition round_significand (q : Q) : Q :=
  let e := binade q in
  (inject_Z (round_half_even (q * pow2 (52 - e))) * pow2 (e - 52))%Q.

(** Rounding to the nearest double with 53 significant bits, ties to
    even, for magnitudes in the normal range. *)
Definition nearest_double (q : Q) : Q :=
  match Qcompare q 0 with
  | Eq => 0%Q
  | Gt => Qred (round_significand q)
  | Lt => Qred (- round_significand (- q))
  end.

(** The timestamps of a series that starts at [now] and steps one hour
    back per point, as the specification words it. *)
Definition backward_from (now : datetime) (N : Z) : list datetime :=
  map (fun h => now - timedelta h) (range (N + 1)).

Definition risk_item (pollutant : string) (w : World) : RiskScore.t :=
  let score := round2 (10 + (90 - 10) * rnd w (draws w)) in
  RiskScore.mk pollutant score (risk_category score)
    (if startswith pollutant "PM" then 50%Q else 40%Q).

(** The five magnitudes drawn in world [w]. *)
Definition magnitudes (w : World) : list Q :=
  map (fun k => 10 + (40 - 10) * rnd w (k + draws w))%Q (seq 0 5).

(** One breakdown entry, the division having succeeded. *)
Definition share (total : Q) (sv : string * Q) : AttributionBreakdown.t :=
  AttributionBreakdown.mk (fst sv) (round2 (snd sv / total * 100))
    (round2 (snd sv / total * 100)).

(** The page the specification describes: keep the stations of the given
    region when one is provided, then skip [offset] of them and take at
    most [limit]. *)
Definition station_page (stations : list Station.t) (region : option string)
    (limit offset : nat) : list Station.t :=
  let matching :=
    match region with
    | Some r => filter (fun s => String.eqb (Station.region s) r) stations
    | None => stations
    end in
  firstn limit (skipn offset matching).

(** The station an alert refers to, of region [r], is in the collection. *)
Definition resolves_in (stations : list Station.t) (r : string)
    (a : AlertRecord.t) : Prop :=
  exists s, In s stations
            /\ Station.station_id s = AlertRecord.station_id a
            /\ Station.region s = r.

(** An alert for a station id that no station carries. *)
Definition dangling_alert : AlertRecord.t :=
  AlertRecord.mk "A-404" "ST-NOWHERE" "NO2" 40 55 T0 "active".

(** The y values of the document equal those handed to the plot. *)
Definition same_numbers (ys ys' : list Q) : Prop := Forall2 Qeq ys ys'.

(** An oscillation term within the range of the sine. *)
Definition bounded_sin (f : Q -> Q) : Prop :=
  forall x : Q, (-1 <= f x)%Q /\ (f x <= 1)%Q.

(** The sample oscillation term cut off at the range of the sine. *)
Definition unit_sin (x : Q) : Q :=
  if Qle_bool (sample_sin x) (-1) then (-1)%Q
  else if Qle_bool 1 (sample_sin x) then 1%Q else sample_sin x.

Fixpoint digits_value (acc : Z) (s : string) : option Z :=
  match s with
  | EmptyString => Some acc
  | String c s' =>
      let n := Z.of_nat (nat_of_ascii c) in
      if (48 <=? n) && (n <=? 57) then digits_value (10 * acc + (n - 48)) s'
      else None
  end.

(** A sample reading of decimal digit strings, used to run
    [get_timeseries] on concrete windows. *)
Definition sample_int (s : string) : option Z :=
  match s with
  | EmptyString => None
  | _ => digits_value 0 s
  end.

(** The position of the dial sector a score belongs to. *)
Definition sector_index (score : Q) : nat :=
  if Qlt_le_dec score 33 then 0%nat
  else if Qlt_le_dec score 66 then 1%nat else 2%nat.

(** * Properties *)

(** ** Rounding *)

Lemma round_half_even_comp (p q : Q) :
  (p == q)%Q -> round_half_even p = round_half_even q.
Proof.
  intros E. unfold round_half_even.
  rewrite (Qfloor_comp _ _ E).
  assert (C : ((p - inject_Z (Qfloor q)) ?= (1 # 2))%Q
              = ((q - inject_Z (Qfloor q)) ?= (1 # 2))%Q).
  { apply Qcompare_comp; [rewrite E|]; reflexivity. }
  rewrite C. reflexivity.
Qed.

Lemma round_half_even_Z (k : Z) : round_half_even (inject_Z k) = k.
Proof.
  unfold round_half_even. rewrite Qfloor_Z.
  assert (L : (inject_Z k - inject_Z k < 1 # 2)%Q) by lra.
  rewrite (proj1 (Qlt_alt _ _) L). reflexivity.
Qed.

Lemma round_half_even_near (q : Q) :
  (q - (1 # 2) <= inject_Z (round_half_even q) <= q + (1 # 2))%Q.
Proof.
  unfold round_half_even.
  pose proof (Qfloor_le q) as Hlo. pose proof (Qlt_floor q) as Hhi.
  rewrite inject_Z_plus in Hhi. change (inject_Z 1) with 1%Q in Hhi.
  destruct (Qcompare (q - inject_Z (Qfloor q)) (1 # 2)) eqn:C.
  - apply Qeq_alt in C.
    destruct (Z.even (Qfloor q));
      [|rewrite inject_Z_plus; change (inject_Z 1) with 1%Q]; lra.
  - apply Qlt_alt in C. lra.
  - apply Qgt_alt in C. rewrite inject_Z_plus.
    change (inject_Z 1) with 1%Q. lra.
Qed.

Lemma cents_div (k : Z) : (k # 100 == inject_Z k / 100)%Q.
Proof.
  unfold Qeq, Qdiv, Qmult, Qinv, inject_Z. simpl. lia.
Qed.

Lemma cents_mul (k : Z) : (k # 100 == inject_Z k * (1 # 100))%Q.
Proof. rewrite cents_div. unfold Qdiv. reflexivity. Qed.

(** Rounding to two decimals moves a value by at most half a cent. *)
Lemma round2_near (q : Q) : (q - (1 # 200) <= round2 q <= q + (1 # 200))%Q.
Proof.
  unfold round2. rewrite cents_div.
  pose proof (round_half_even_near (q * 100)) as H.
  set (r := inject_Z (round_half_even (q * 100))) in *.
  assert (E : (r / 100 == r * (1 # 100))%Q) by (unfold Qdiv; reflexivity).
  rewrite E. lra.
Qed.

Lemma round2_is_cent (q : Q) : is_cent (round2 q).
Proof. exists (round_half_even (q * 100)). reflexivity. Qed.

Lemma round2_cent (q : Q) : is_cent q -> (round2 q == q)%Q.
Proof.
  intros [k E]. unfold round2.
  assert (E' : (q * 100 == inject_Z k)%Q).
  { rewrite E, cents_div. field. }
  rewrite (round_half_even_comp _ _ E'), round_half_even_Z, E. reflexivity.
Qed.

Lemma is_cent_shift (q : Q) (n : Z) : is_cent q -> is_cent (q + inject_Z n).
Proof.
  intros [k E]. exists (k + 100 * n). rewrite E, !cents_div.
  rewrite inject_Z_plus, inject_Z_mult. field.
Qed.

Lemma py_max_0_cases (q : Q) :
  (q <= 0 /\ py_max 0 q = 0)%Q \/ (0 < q /\ py_max 0 q = q)%Q.
Proof.
  unfold py_max. destruct (Qle_bool q 0) eqn:E.
  - left. split; [apply Qle_bool_iff; exact E | reflexivity].
  - right. split; [|reflexivity].
    apply Qnot_le_lt. intros H. apply Qle_bool_iff in H. congruence.
Qed.

Lemma py_max_0_cent (q : Q) : is_cent q -> is_cent (py_max 0 q).
Proof.
  intros H. destruct (py_max_0_cases q) as [[_ ->] | [_ ->]]; [|exact H].
  exists 0. reflexivity.
Qed.

Lemma round2_comp (p q : Q) : (p == q)%Q -> round2 p = round2 q.
Proof.
  intros E. unfold round2. f_equal. apply round_half_even_comp.
  rewrite E. reflexivity.
Qed.

Lemma round2_cent_shift (q : Q) (n : Z) :
  is_cent q -> (round2 (q + inject_Z n) == q + inject_Z n)%Q.
Proof. intros H. apply round2_cent, is_cent_shift, H. Qed.

(** Rounding to two decimals keeps a value between two-decimal bounds. *)
Lemma round2_between (a b : Z) (q : Q) :
  (a # 100 <= q)%Q -> (q <= b # 100)%Q ->
  (a # 100 <= round2 q)%Q /\ (round2 q <= b # 100)%Q.
Proof.
  intros Ha Hb. unfold round2.
  pose proof (round_half_even_near (q * 100)) as [Hlo Hhi].
  set (r := round_half_even (q * 100)) in *.
  rewrite cents_mul in Ha, Hb.
  assert (La : (inject_Z (2 * a) <= inject_Z (2 * r + 1))%Q).
  { rewrite inject_Z_plus, !inject_Z_mult.
    change (inject_Z 2) with 2%Q. change (inject_Z 1) with 1%Q. lra. }
  assert (Lb : (inject_Z (2 * r) <= inject_Z (2 * b + 1))%Q).
  { rewrite inject_Z_plus, !inject_Z_mult.
    change (inject_Z 2) with 2%Q. change (inject_Z 1) with 1%Q. lra. }
  rewrite <- Zle_Qle in La, Lb.
  unfold Qle; cbn [Qnum Qden]. lia.
Qed.

(** ** Loops whose body cannot raise *)

Section PureLoop.

Context {A B : Type}.
Variable f : A -> M B.
Variable g : A -> World -> B.
Variable step : World -> World.
Hypothesis f_runs : forall x w, f x w = (Ok (g x w), step w).

Lemma for_each_trace (xs : list A) (w : World) :
  for_each f xs w = (Ok (trace g step xs w), Nat.iter (length xs) step w).
Proof.
  revert w. induction xs as [|x xs IH]; intros w; [reflexivity|].
  cbn [for_each trace length]. unfold bind at 1. rewrite f_runs.
  unfold bind at 1. rewrite IH, Nat.iter_succ_r. reflexivity.
Qed.

Lemma trace_length (xs : list A) (w : World) :
  length (trace g step xs w) = length xs.
Proof.
  revert w. induction xs as [|x xs IH]; intros w; cbn; [|rewrite IH]; reflexivity.
Qed.

Lemma trace_nth (xs : list A) (w : World) (i : nat) (x : A) :
  nth_error xs i = Some x ->
  nth_error (trace g step xs w) i = Some (g x (Nat.iter i step w)).
Proof.
  revert w i. induction xs as [|y xs IH]; intros w [|i] H; cbn in H; try discriminate.
  - injection H as ->. reflexivity.
  - cbn [trace nth_error]. rewrite (IH _ _ H), Nat.iter_succ_r. reflexivity.
Qed.

Lemma trace_Forall (P : B -> Prop) (xs : list A) (w : World) :
  (forall x w', P (g x w')) -> Forall P (trace g step xs w).
Proof.
  intros H. revert w. induction xs as [|x xs IH]; intros w; cbn; constructor; auto.
Qed.

End PureLoop.

Lemma iter_tick (n : nat) (w : World) : Nat.iter n tick w = advance n n w.
Proof.
  induction n as [|n IH]; [destruct w; reflexivity|].
  rewrite Nat.iter_succ, IH. reflexivity.
Qed.

Lemma iter_drew (n : nat) (w : World) : Nat.iter n drew w = advance 0 n w.
Proof.
  induction n as [|n IH]; [destruct w; reflexivity|].
  rewrite Nat.iter_succ, IH. reflexivity.
Qed.

(** ** Ranges *)

Lemma range_length (n : Z) : length (range n) = Z.to_nat n.
Proof. unfold range. rewrite length_map, length_seq. reflexivity. Qed.

Lemma range_nth (n : Z) (i : nat) :
  (i < Z.to_nat n)%nat -> nth_error (range n) i = Some (Z.of_nat i).
Proof.
  intros H. unfold range. rewrite nth_error_map, nth_error_seq.
  apply Nat.ltb_lt in H. rewrite H. reflexivity.
Qed.

Lemma range_down_length (n : Z) : length (range_down n) = Z.to_nat (n + 1).
Proof. unfold range_down. rewrite length_rev. apply range_length. Qed.

Lemma range_down_nth (n : Z) (i : nat) :
  (i < Z.to_nat (n + 1))%nat ->
  nth_error (range_down n) i = Some (n - Z.of_nat i).
Proof.
  intros H. unfold range_down. rewrite nth_error_rev, range_length.
  pose proof H as H'. apply Nat.ltb_lt in H'. rewrite H'.
  rewrite range_nth by lia. f_equal. lia.
Qed.

Lemma sample_world_valid : valid_random sample_world.
Proof.
  intros k. cbn [rnd sample_world].
  pose proof (Nat.mod_upper_bound k 10 ltac:(discriminate)) as H.
  unfold Qle, Qlt; cbn [Qnum Qden]. lia.
Qed.

Lemma sample_world_monotone : monotone_clock sample_world.
Proof. intros k. cbn [utc sample_world]. lia. Qed.

(** ** Forecasts *)

Section ForecastFacts.

Variable math_sin : Q -> Q.

Lemma forecast_point_runs (base : Q) (h : Z) (w : World) :
  forecast_point math_sin base h w = (Ok (forecast_item math_sin base h w), tick w).
Proof. reflexivity. Qed.

Lemma generate_forecasts_runs (st p : string) (N : Z) (w : World) :
  generate_forecasts math_sin st p N w
  = (Ok (trace (forecast_item math_sin (forecast_base p)) tick (range N) w),
     advance (Z.to_nat N) (Z.to_nat N) w).
Proof.
  unfold generate_forecasts.
  rewrite (for_each_trace _ _ _ (forecast_point_runs (forecast_base p))).
  rewrite iter_tick, range_length. reflexivity.
Qed.


End ForecastFacts.

Lemma forecast_item_band (math_sin : Q -> Q) (base : Q) (h : Z) (w : World) :
  bracketed (forecast_item math_sin base h w)
  /\ band_of_eight (forecast_item math_sin base h w).
Proof.
  unfold bracketed, band_of_eight, forecast_item; cbn.
  set (x := (base + _)%Q).
  assert (C : is_cent (py_max 0 (round2 x))) by apply py_max_0_cent, round2_is_cent.
  set (val := py_max 0 (round2 x)) in *.
  assert (V : (0 <= val)%Q).
  { subst val. destruct (py_max_0_cases (round2 x)) as [[_ ->] | [L ->]]; lra. }
  assert (U : (round2 (val + 8) == val + 8)%Q) by apply (round2_cent_shift val 8 C).
  assert (L : (round2 (val - 8) == val - 8)%Q).
  { rewrite (round2_comp (val - 8) (val + inject_Z (-8)))
      by (unfold inject_Z; lra).
    rewrite (round2_cent_shift val (-8) C). unfold inject_Z. lra. }
  destruct (py_max_0_cases (round2 (val - 8))) as [[A ->] | [A ->]];
    destruct (py_max_0_cases (val - 8)) as [[B ->] | [B ->]];
    repeat split; lra.
Qed.

Lemma forecast_ts_frozen (math_sin : Q -> Q) (base : Q) (now : datetime)
    (hs : list Z) (w : World) :
  (forall k, utc w k = now) ->
  map ForecastPoint.ts (trace (forecast_item math_sin base) tick hs w)
  = map (fun h => now + timedelta h) hs.
Proof.
  revert w. induction hs as [|h hs IH]; intros w F; [reflexivity|].
  cbn [trace map]. rewrite (IH (tick w)) by exact F.
  cbn [forecast_item ForecastPoint.ts]. rewrite F. reflexivity.
Qed.

(** When the clock stands still for the duration of the call, the points
    sit exactly on the hours after that instant. *)
Lemma generate_forecasts_frozen_clock (math_sin : Q -> Q) (st p : string)
    (N : Z) (w : World) (now : datetime) :
  (forall k, utc w k = now) ->
  exists pts w',
    generate_forecasts math_sin st p N w = (Ok pts, w')
    /\ map ForecastPoint.ts pts = hourly_from now N.
Proof.
  intros F. eexists. eexists. split; [apply generate_forecasts_runs|].
  apply forecast_ts_frozen, F.
Qed.




(** C6: every forecast point has [0 <= ci_lower <= value <= ci_upper]; the
    value is floored at zero, the band is the value plus and minus eight,
    and the lower end is floored at zero. *)
Theorem forecast_confidence_band (math_sin : Q -> Q) (st p : string)
    (N : Z) (w : World) :
  exists pts w',
    generate_forecasts math_sin st p N w = (Ok pts, w')
    /\ Forall (fun pt => bracketed pt /\ band_of_eight pt) pts.
Proof.
  eexists. eexists. split; [apply generate_forecasts_runs|].
  apply trace_Forall. intros h w'. apply forecast_item_band.
Qed.

(** ** Observed time series *)

Lemma timeseries_point_runs (to_double : Q -> Q) (h : Z) (w : World) :
  stamp_ok (utc w (reads w)) h = true ->
  timeseries_point to_double h w = (Ok (timeseries_item to_double h w), tick w).
Proof.
  unfold stamp_ok. intros H. apply andb_true_iff in H as [T R].
  unfold timeseries_point, bind, utcnow, py_timedelta, datetime_sub.
  rewrite T. cbn [ret]. rewrite R. reflexivity.
Qed.

(** A timestamp that cannot be formed stops the call after one clock
    reading and before any draw. *)
Lemma timeseries_point_overflow (to_double : Q -> Q) (h : Z) (w : World) :
  stamp_ok (utc w (reads w)) h = false ->
  timeseries_point to_double h w = (Raise OverflowError, advance 1 0 w).
Proof.
  unfold stamp_ok. intros H.
  unfold timeseries_point, bind, utcnow, py_timedelta, datetime_sub.
  destruct (timedelta_ok h); [|reflexivity]. cbn [ret].
  cbn [andb] in H. rewrite H. reflexivity.
Qed.

Lemma for_each_trace_when {A B} (f : A -> M B) (g : A -> World -> B)
    (step : World -> World) (xs : list A) (w : World) :
  (forall i x, nth_error xs i = Some x ->
     f x (Nat.iter i step w)
     = (Ok (g x (Nat.iter i step w)), step (Nat.iter i step w))) ->
  for_each f xs w = (Ok (trace g step xs w), Nat.iter (length xs) step w).
Proof.
  revert w. induction xs as [|x xs IH]; intros w H; [reflexivity|].
  cbn [for_each trace length]. unfold bind at 1.
  pose proof (H 0%nat x eq_refl) as H0.
  change (Nat.iter 0 step w) with w in H0. rewrite H0. unfold bind at 1.
  rewrite IH, Nat.iter_succ_r; [reflexivity|].
  intros i y Hy. rewrite <- Nat.iter_succ_r. apply (H (S i) y Hy).
Qed.

Lemma generate_timeseries_runs (to_double : Q -> Q) (st : option string)
    (p : string) (N : Z) (w : World) :
  span_representable N w ->
  generate_timeseries to_double st p N w
  = (Ok (trace (timeseries_item to_double) tick (range_down N) w),
     advance (Z.to_nat (N + 1)) (Z.to_nat (N + 1)) w).
Proof.
  intros S. unfold generate_timeseries.
  rewrite (for_each_trace_when _ (timeseries_item to_double) tick).
  - rewrite iter_tick, range_down_length. reflexivity.
  - intros i x Hx. rewrite iter_tick.
    assert (Hi : (i < Z.to_nat (N + 1))%nat).
    { rewrite <- range_down_length. apply nth_error_Some. congruence. }
    rewrite (range_down_nth N i Hi) in Hx. injection Hx as <-.
    apply timeseries_point_runs. apply (S i Hi).
Qed.

Lemma generate_timeseries_overflow (to_double : Q -> Q) (st : option string)
    (p : string) (N : Z) (w : World) :
  0 <= N ->
  stamp_ok (utc w (reads w)) N = false ->
  generate_timeseries to_double st p N w = (Raise OverflowError, advance 1 0 w).
Proof.
  intros HN H. unfold generate_timeseries.
  pose proof (range_down_nth N 0 ltac:(lia)) as E.
  destruct (range_down N) as [|h hs]; [discriminate E|].
  cbn in E. injection E as ->. rewrite Z.sub_0_r in *.
  cbn [for_each]. unfold bind at 1.
  rewrite (timeseries_point_overflow _ _ _ H). reflexivity.
Qed.

(** Whatever the span, a series call either returns the items of its
    loop or raises [OverflowError]. *)
Lemma for_each_timeseries_outcome (to_double : Q -> Q) (hs : list Z) (w : World)
    (res : result (list TimeSeriesPoint.t)) (w1 : World) :
  for_each (timeseries_point to_double) hs w = (res, w1) ->
  match res with
  | Ok pts => pts = trace (timeseries_item to_double) tick hs w
              /\ w1 = Nat.iter (length hs) tick w
  | Raise e => e = OverflowError
  end.
Proof.
  revert w res w1. induction hs as [|h hs IH]; intros w res w1 H.
  - cbn in H. injection H as <- <-. split; reflexivity.
  - cbn [for_each] in H. unfold bind at 1 in H.
    destruct (stamp_ok (utc w (reads w)) h) eqn:S.
    + rewrite (timeseries_point_runs _ _ _ S) in H. unfold bind at 1 in H.
      destruct (for_each (timeseries_point to_double) hs (tick w))
        as [[pts|e] w'] eqn:F.
      * injection H as <- <-. destruct (IH _ _ _ F) as [-> ->].
        cbn [trace length]. rewrite Nat.iter_succ_r. split; reflexivity.
      * injection H as <- <-. exact (IH _ _ _ F).
    + rewrite (timeseries_point_overflow _ _ _ S) in H.
      injection H as <- <-. reflexivity.
Qed.

Lemma monotone_from (w : World) (r i : nat) :
  monotone_clock w -> utc w r <= utc w (i + r).
Proof.
  intros M. induction i as [|i IH]; [cbn; lia|].
  pose proof (M (i + r)%nat). cbn [Nat.add]. lia.
Qed.

(** Under a clock that never runs backwards and stays within
    [datetime.max], a series can be formed as soon as its first, oldest
    timestamp can. *)
Lemma span_from_first (N : Z) (w : World) :
  0 <= N ->
  monotone_clock w ->
  (forall i : nat, (i < Z.to_nat (N + 1))%nat -> utc w (i + reads w) <= datetime_max) ->
  datetime_min <= utc w (reads w) - timedelta N ->
  span_representable N w.
Proof.
  intros HN M Max Min i Hi.
  pose proof (Max 0%nat ltac:(lia)) as Max0. cbn [Nat.add] in Max0.
  pose proof (Max i Hi) as Maxi.
  pose proof (monotone_from w (reads w) i M) as Mi.
  unfold timedelta, HOUR, datetime_min, datetime_max in *.
  assert (B : N <= 87649416) by lia.
  unfold stamp_ok, timedelta_ok, representable, timedelta, HOUR,
    datetime_min, datetime_max.
  assert (D0 : 0 <= (N - Z.of_nat i) / 24) by (apply Z.div_pos; lia).
  assert (D1 : (N - Z.of_nat i) / 24 <= 999999999).
  { apply Z.div_le_upper_bound; lia. }
  repeat (apply andb_true_iff; split); apply Z.leb_le; lia.
Qed.

Lemma timeseries_ts_nth (to_double : Q -> Q) (N : Z) (w : World) (i : nat) :
  (i < Z.to_nat (N + 1))%nat ->
  nth_error (map TimeSeriesPoint.ts
               (trace (timeseries_item to_double) tick (range_down N) w)) i
  = Some (utc w (i + reads w)%nat - timedelta (N - Z.of_nat i)).
Proof.
  intros H. rewrite nth_error_map.
  rewrite (trace_nth _ _ _ _ _ _ (range_down_nth N i H)), iter_tick. reflexivity.
Qed.

(** The timestamps of a series that starts at [now] and steps one hour
    back per point are not what the loop produces: see below. *)
Lemma timeseries_ts_frozen (to_double : Q -> Q) (now : datetime) (hs : list Z)
    (w : World) :
  (forall k, utc w k = now) ->
  map TimeSeriesPoint.ts (trace (timeseries_item to_double) tick hs w)
  = map (fun h => now - timedelta h) hs.
Proof.
  revert w. induction hs as [|h hs IH]; intros w F; [reflexivity|].
  cbn [trace map]. rewrite (IH (tick w)) by exact F.
  cbn [timeseries_item TimeSeriesPoint.ts]. rewrite F. reflexivity.
Qed.

(** Under a clock that stands still the series is in chronological order:
    it is the specification's backward walk, reversed. *)
Lemma generate_timeseries_frozen_clock (to_double : Q -> Q) (st : option string)
    (p : string) (N : Z) (w : World) (now : datetime) :
  (forall k, utc w k = now) ->
  span_representable N w ->
  exists pts w',
    generate_timeseries to_double st p N w = (Ok pts, w')
    /\ map TimeSeriesPoint.ts pts = rev (backward_from now N).
Proof.
  intros F S. eexists. eexists. split; [apply generate_timeseries_runs, S|].
  rewrite (timeseries_ts_frozen to_double now) by exact F.
  unfold backward_from, range_down. rewrite map_rev. reflexivity.
Qed.

(** ** Rounding to the nearest double *)

Lemma pow2_power (e : Z) : (pow2 e == 2 ^ e)%Q.
Proof.
  unfold pow2. destruct (Z.leb_spec 0 e) as [H|H].
  - exact (Zpower_Qpower 2 e H).
  - replace e with (- (- e)) at 2 by lia. rewrite Qpower_opp.
    assert (E : (inject_Z (2 ^ (- e)) == 2 ^ (- e))%Q).
    { apply (Zpower_Qpower 2 (- e)). lia. }
    rewrite <- E.
    assert (P : 0 < 2 ^ (- e)) by (apply Z.pow_pos_nonneg; lia).
    destruct (2 ^ (- e)) as [|x|x]; try lia. reflexivity.
Qed.

Lemma pow2_pos (e : Z) : (0 < pow2 e)%Q.
Proof. rewrite pow2_power. apply Qpower_0_lt. reflexivity. Qed.

Lemma pow2_plus (a b : Z) : (pow2 (a + b) == pow2 a * pow2 b)%Q.
Proof. rewrite !pow2_power. apply Qpower_plus. discriminate. Qed.

Lemma pow2_le (a b : Z) : a <= b -> (pow2 a <= pow2 b)%Q.
Proof. intros H. rewrite !pow2_power. apply Qpower_le_compat_l; [exact H | discriminate]. Qed.

Lemma pow2_lt_inv (a b : Z) : (pow2 a < pow2 b)%Q -> a < b.
Proof.
  intros H. destruct (Z_lt_le_dec a b) as [L|L]; [exact L|].
  pose proof (pow2_le b a L). exfalso. apply (Qlt_not_le _ _ H). assumption.
Qed.

Lemma pow2_frac (a b : Z) : 0 <= a -> 0 <= b ->
  (pow2 (a - b) == (2 ^ a) # Z.to_pos (2 ^ b))%Q.
Proof.
  intros Ha Hb. unfold Z.sub. rewrite pow2_plus.
  assert (E : (pow2 (- b) == 1 # Z.to_pos (2 ^ b))%Q).
  { destruct (Z.eq_dec b 0) as [->|N]; [reflexivity|].
    unfold pow2. destruct (Z.leb_spec 0 (- b)); [lia|].
    rewrite Z.opp_involutive. reflexivity. }
  rewrite E. unfold pow2. destruct (Z.leb_spec 0 a); [|lia].
  unfold Qeq, Qmult, inject_Z; cbn [Qnum Qden]. 
  rewrite Pos.mul_1_l. lia.
Qed.

Lemma binade_spec (q : Q) :
  (0 < q)%Q -> (pow2 (binade q) <= q)%Q /\ (q < pow2 (binade q + 1))%Q.
Proof.
  intros Hq. destruct q as [n d]. 
  assert (Hn : 0 < n) by (unfold Qlt in Hq; cbn in Hq; lia).
  unfold binade; cbn [Qnum Qden].
  set (ln := Z.log2 n). set (ld := Z.log2 (Z.pos d)).
  pose proof (Z.log2_spec n Hn) as [N0 N1]. fold ln in N0, N1.
  pose proof (Z.log2_spec (Z.pos d) ltac:(lia)) as [D0 D1]. fold ld in D0, D1.
  pose proof (Z.log2_nonneg n) as Ln. fold ln in Ln.
  pose proof (Z.log2_nonneg (Z.pos d)) as Ld. fold ld in Ld.
  assert (Up : (n # d < pow2 (ln - ld + 1))%Q).
  { replace (ln - ld + 1) with ((ln + 1) - ld) by lia.
    rewrite pow2_frac by lia. unfold Qlt; cbn [Qnum Qden].
    rewrite Z2Pos.id by (apply Z.pow_pos_nonneg; lia).
    replace (Z.succ ln) with (ln + 1) in N1 by lia.
    assert (0 < 2 ^ ld) by (apply Z.pow_pos_nonneg; lia). nia. }
  assert (Lo : (pow2 (ln - ld - 1) <= n # d)%Q).
  { replace (ln - ld - 1) with (ln - (ld + 1)) by lia.
    rewrite pow2_frac by lia. unfold Qle; cbn [Qnum Qden].
    rewrite Z2Pos.id by (apply Z.pow_pos_nonneg; lia).
    replace (Z.succ ld) with (ld + 1) in D1 by lia.
    assert (0 < 2 ^ ln) by (apply Z.pow_pos_nonneg; lia). nia. }
  destruct (Qle_bool (pow2 (ln - ld)) (n # d)) eqn:C.
  - split; [apply Qle_bool_iff, C | exact Up].
  - split; [exact Lo|]. replace (ln - ld - 1 + 1) with (ln - ld) by lia.
    apply Qnot_le_lt. intros H. apply Qle_bool_iff in H. congruence.
Qed.

Lemma inject_Z_lt (a b : Z) : a < b -> (inject_Z a < inject_Z b)%Q.
Proof. intros H. rewrite <- Zlt_Qlt. exact H. Qed.

Lemma round_half_even_floor (q : Q) :
  round_half_even q = Qfloor q \/ round_half_even q = Qfloor q + 1.
Proof.
  unfold round_half_even.
  destruct (Qcompare (q - inject_Z (Qfloor q)) (1 # 2)); auto.
  destruct (Z.even (Qfloor q)); auto.
Qed.

Lemma round_half_even_mono (p q : Q) :
  (p <= q)%Q -> round_half_even p <= round_half_even q.
Proof.
  intros H. pose proof (Qfloor_resp_le _ _ H) as F.
  destruct (Z.eq_dec (Qfloor p) (Qfloor q)) as [E|N].
  - unfold round_half_even. rewrite <- E.
    destruct (Qcompare (p - inject_Z (Qfloor p)) (1 # 2)) eqn:Cp;
    destruct (Qcompare (q - inject_Z (Qfloor p)) (1 # 2)) eqn:Cq;
    first [apply Qeq_alt in Cp | apply Qlt_alt in Cp | apply Qgt_alt in Cp];
    first [apply Qeq_alt in Cq | apply Qlt_alt in Cq | apply Qgt_alt in Cq];
    try (exfalso; lra); destruct (Z.even (Qfloor p)); lia.
  - destruct (round_half_even_floor p), (round_half_even_floor q); lia.
Qed.

Lemma binade_unique (q : Q) (k : Z) :
  (0 < q)%Q -> (pow2 k <= q)%Q -> (q < pow2 (k + 1))%Q -> binade q = k.
Proof.
  intros Hq L U. destruct (binade_spec q Hq) as [L' U'].
  assert (k < binade q + 1).
  { apply pow2_lt_inv. eapply Qle_lt_trans; eassumption. }
  assert (binade q < k + 1).
  { apply pow2_lt_inv. eapply Qle_lt_trans; eassumption. }
  lia.
Qed.

Lemma binade_mono (p q : Q) : (0 < p)%Q -> (p <= q)%Q -> binade p <= binade q.
Proof.
  intros Hp H. assert (Hq : (0 < q)%Q) by lra.
  destruct (binade_spec p Hp) as [Lp _]. destruct (binade_spec q Hq) as [_ Uq].
  assert (binade p < binade q + 1); [|lia].
  apply pow2_lt_inv. lra.
Qed.

Lemma pow2_inverse (e : Z) : (pow2 e * pow2 (- e) == 1)%Q.
Proof. rewrite <- pow2_plus. rewrite Z.add_opp_diag_r. reflexivity. Qed.

Lemma scaled_bounds (q : Q) :
  (0 < q)%Q ->
  (inject_Z (2 ^ 52) <= q * pow2 (52 - binade q))%Q
  /\ (q * pow2 (52 - binade q) < inject_Z (2 ^ 53))%Q.
Proof.
  intros Hq. destruct (binade_spec q Hq) as [L U].
  set (e := binade q) in *.
  pose proof (pow2_pos (52 - e)) as S.
  assert (E1 : (pow2 e * pow2 (52 - e) == inject_Z (2 ^ 52))%Q).
  { rewrite <- pow2_plus. replace (e + (52 - e)) with 52 by lia. reflexivity. }
  assert (E2 : (pow2 (e + 1) * pow2 (52 - e) == inject_Z (2 ^ 53))%Q).
  { rewrite <- pow2_plus. replace (e + 1 + (52 - e)) with 53 by lia. reflexivity. }
  split.
  - rewrite <- E1. apply Qmult_le_compat_r; lra.
  - rewrite <- E2. apply Qmult_lt_compat_r; lra.
Qed.

Lemma significand_bounds (q : Q) :
  (0 < q)%Q ->
  2 ^ 52 <= round_half_even (q * pow2 (52 - binade q)) <= 2 ^ 53.
Proof.
  intros Hq. destruct (scaled_bounds q Hq) as [L U]. split.
  - rewrite <- (round_half_even_Z (2 ^ 52)). apply round_half_even_mono, L.
  - rewrite <- (round_half_even_Z (2 ^ 53)). apply round_half_even_mono. lra.
Qed.

Lemma round_significand_bounds (q : Q) :
  (0 < q)%Q ->
  (pow2 (binade q) <= round_significand q)%Q
  /\ (round_significand q <= pow2 (binade q + 1))%Q.
Proof.
  intros Hq. destruct (significand_bounds q Hq) as [L U].
  unfold round_significand. cbv zeta.
  set (e := binade q) in *. set (m := round_half_even _) in *.
  pose proof (pow2_pos (e - 52)) as S.
  assert (E1 : (inject_Z (2 ^ 52) * pow2 (e - 52) == pow2 e)%Q).
  { change (inject_Z (2 ^ 52)) with (pow2 52). rewrite <- pow2_plus.
    replace (52 + (e - 52)) with e by lia. reflexivity. }
  assert (E2 : (inject_Z (2 ^ 53) * pow2 (e - 52) == pow2 (e + 1))%Q).
  { change (inject_Z (2 ^ 53)) with (pow2 53). rewrite <- pow2_plus.
    replace (53 + (e - 52)) with (e + 1) by lia. reflexivity. }
  split.
  - rewrite <- E1. apply Qmult_le_compat_r; [|lra].
    rewrite <- Zle_Qle. exact L.
  - rewrite <- E2. apply Qmult_le_compat_r; [|lra].
    rewrite <- Zle_Qle. exact U.
Qed.

Lemma round_significand_pos (q : Q) : (0 < q)%Q -> (0 < round_significand q)%Q.
Proof.
  intros Hq. destruct (round_significand_bounds q Hq) as [L _].
  pose proof (pow2_pos (binade q)). lra.
Qed.

Lemma round_significand_mono (p q : Q) :
  (0 < p)%Q -> (p <= q)%Q -> (round_significand p <= round_significand q)%Q.
Proof.
  intros Hp H. assert (Hq : (0 < q)%Q) by lra.
  pose proof (binade_mono p q Hp H) as B.
  destruct (Z.eq_dec (binade p) (binade q)) as [E|N].
  - unfold round_significand. cbv zeta. rewrite E.
    pose proof (pow2_pos (binade q - 52)) as S.
    pose proof (pow2_pos (52 - binade q)) as S'.
    apply Qmult_le_compat_r; [|lra]. rewrite <- Zle_Qle.
    apply round_half_even_mono. apply Qmult_le_compat_r; lra.
  - destruct (round_significand_bounds p Hp) as [_ U].
    destruct (round_significand_bounds q Hq) as [L _].
    pose proof (pow2_le (binade p + 1) (binade q) ltac:(lia)). lra.
Qed.

Lemma round_significand_near (q : Q) :
  (0 < q)%Q ->
  (Qabs (round_significand q - q) <= (1 # 2) * pow2 (binade q - 52))%Q.
Proof.
  intros Hq. unfold round_significand. cbv zeta.
  set (e := binade q). set (x := (q * pow2 (52 - e))%Q).
  pose proof (round_half_even_near x) as [L U].
  pose proof (pow2_pos (e - 52)) as S.
  assert (E : (q == x * pow2 (e - 52))%Q).
  { unfold x. rewrite <- Qmult_assoc, <- pow2_plus.
    replace (52 - e + (e - 52)) with 0 by lia. change (pow2 0) with 1%Q. ring. }
  set (m := inject_Z (round_half_even x)) in *.
  set (s := pow2 (e - 52)) in *.
  setoid_replace (m * s - q)%Q with ((m - x) * s)%Q by (rewrite E at 1; ring).
  apply Qabs_Qle_condition. split.
  - setoid_replace (- ((1 # 2) * s))%Q with ((- (1 # 2)) * s)%Q by ring.
    apply Qmult_le_compat_r; lra.
  - apply Qmult_le_compat_r; lra.
Qed.

Lemma round_significand_Z (n : Z) :
  0 < n <= 2 ^ 53 -> (round_significand (inject_Z n) == inject_Z n)%Q.
Proof.
  intros [N0 N1]. destruct (Z.eq_dec n (2 ^ 53)) as [->|N]; [reflexivity|].
  assert (Hq : (0 < inject_Z n)%Q) by (apply (inject_Z_lt 0 n); exact N0).
  destruct (binade_spec (inject_Z n) Hq) as [L _].
  assert (B : binade (inject_Z n) < 53).
  { apply pow2_lt_inv. eapply Qle_lt_trans; [exact L|].
    change (pow2 53) with (inject_Z (2 ^ 53)). apply inject_Z_lt. lia. }
  unfold round_significand. cbv zeta. set (e := binade (inject_Z n)) in *.
  assert (X : (inject_Z n * pow2 (52 - e) == inject_Z (n * 2 ^ (52 - e)))%Q).
  { unfold pow2. destruct (Z.leb_spec 0 (52 - e)); [|lia].
    rewrite inject_Z_mult. reflexivity. }
  rewrite (round_half_even_comp _ _ X), round_half_even_Z.
  rewrite <- X, <- Qmult_assoc, <- pow2_plus.
  replace (52 - e + (e - 52)) with 0 by lia. change (pow2 0) with 1%Q. ring.
Qed.

Lemma nearest_double_pos (q : Q) :
  (0 < q)%Q -> (nearest_double q == round_significand q)%Q.
Proof.
  intros H. unfold nearest_double. rewrite (proj1 (Qgt_alt _ _) H).
  apply Qred_correct.
Qed.

Lemma nearest_double_neg (q : Q) :
  (q < 0)%Q -> (nearest_double q == - round_significand (- q))%Q.
Proof.
  intros H. unfold nearest_double. rewrite (proj1 (Qlt_alt _ _) H).
  apply Qred_correct.
Qed.

Lemma nearest_double_zero (q : Q) : (q == 0)%Q -> nearest_double q = 0%Q.
Proof.
  intros H. unfold nearest_double. rewrite (proj1 (Qeq_alt _ _) H). reflexivity.
Qed.

Lemma nearest_rounding : double_rounding nearest_double.
Proof.
  split.
  - intros p q H.
    destruct (Q_dec p 0) as [[Pn|Pp]|Pz], (Q_dec q 0) as [[Qn|Qp]|Qz];
      try (exfalso; lra).
    + rewrite (nearest_double_neg p Pn), (nearest_double_neg q Qn).
      apply Qopp_le_compat. apply round_significand_mono; lra.
    + rewrite (nearest_double_neg p Pn), (nearest_double_pos q Qp).
      pose proof (round_significand_pos (- p) ltac:(lra)).
      pose proof (round_significand_pos q Qp). lra.
    + rewrite (nearest_double_neg p Pn), (nearest_double_zero q Qz).
      pose proof (round_significand_pos (- p) ltac:(lra)). lra.
    + rewrite (nearest_double_pos p Pp), (nearest_double_pos q Qp).
      apply round_significand_mono; lra.
    + rewrite (nearest_double_zero p Pz), (nearest_double_pos q Qp).
      pose proof (round_significand_pos q Qp). lra.
    + rewrite (nearest_double_zero p Pz), (nearest_double_zero q Qz). lra.
  - intros n [N0 N1].
    destruct (Z.lt_trichotomy n 0) as [Neg|[->|Pos]].
    + assert (H : (inject_Z n < 0)%Q) by (apply (inject_Z_lt n 0); exact Neg).
      rewrite (nearest_double_neg _ H).
      change (- inject_Z n)%Q with (inject_Z (- n)).
      rewrite round_significand_Z by (change (2 ^ 53) with 9007199254740992; lia).
      rewrite inject_Z_opp. ring.
    + reflexivity.
    + assert (H : (0 < inject_Z n)%Q) by (apply (inject_Z_lt 0 n); exact Pos).
      rewrite (nearest_double_pos _ H).
      apply round_significand_Z. change (2 ^ 53) with 9007199254740992. lia.
  - intros q B.
    assert (K : forall r : Q, (0 < r)%Q -> (r <= 1024)%Q ->
              (Qabs (round_significand r - r) <= 1 # 8796093022208)%Q).
    { intros r R0 R1. eapply Qle_trans; [apply round_significand_near, R0|].
      destruct (binade_spec r R0) as [L _].
      assert (E : binade r < 11).
      { apply pow2_lt_inv. eapply Qle_lt_trans; [exact L|].
        change (pow2 11) with 2048%Q. lra. }
      pose proof (pow2_le (binade r - 52) (-42) ltac:(lia)) as P.
      change (pow2 (-42)) with (1 # 4398046511104)%Q in P.
      setoid_replace (1 # 8796093022208)%Q with ((1 # 2) * (1 # 4398046511104))%Q
        by reflexivity.
      lra. }
    destruct (Q_dec q 0) as [[Qn|Qp]|Qz].
    + rewrite (nearest_double_neg q Qn).
      rewrite Qabs_neg in B by lra.
      setoid_replace (- round_significand (- q) - q)%Q
        with (- (round_significand (- q) - - q))%Q by ring.
      rewrite Qabs_opp. apply K; lra.
    + rewrite (nearest_double_pos q Qp).
      rewrite Qabs_pos in B by lra. apply K; lra.
    + rewrite (nearest_double_zero q Qz).
      setoid_replace (0 - q)%Q with 0%Q by (rewrite Qz; ring). discriminate.
Qed.

(** The value of an observed point: within [[40, 120]] and within 0.01 of
    the draw scaled to that range. *)
Lemma observed_value_range (rn : Q -> Q) (u : Q) :
  double_rounding rn -> (0 <= u)%Q -> (u < 1)%Q ->
  (40 <= observed_value rn u)%Q
  /\ (observed_value rn u <= 120)%Q
  /\ (Qabs (observed_value rn u - (40 + 80 * u)) <= 1 # 100)%Q.
Proof.
  intros R U0 U1. unfold observed_value.
  pose proof (rn_integer rn R 0 ltac:(lia)) as I0.
  pose proof (rn_integer rn R 40 ltac:(lia)) as I40.
  pose proof (rn_integer rn R 80 ltac:(lia)) as I80.
  pose proof (rn_integer rn R 120 ltac:(lia)) as I120.
  change (inject_Z 0) with 0%Q in I0. change (inject_Z 40) with 40%Q in I40.
  change (inject_Z 80) with 80%Q in I80. change (inject_Z 120) with 120%Q in I120.
  set (a := rn (u * 80)%Q).
  assert (A0 : (0 <= a)%Q) by (rewrite <- I0; apply (rn_monotone rn R); lra).
  assert (A1 : (a <= 80)%Q) by (rewrite <- I80; apply (rn_monotone rn R); lra).
  set (b := rn (40 + a)%Q).
  assert (B0 : (40 <= b)%Q) by (rewrite <- I40; apply (rn_monotone rn R); lra).
  assert (B1 : (b <= 120)%Q) by (rewrite <- I120; apply (rn_monotone rn R); lra).
  destruct (round2_between 4000 12000 b) as [C0 C1]; [lra | lra |].
  set (c := round2 b) in *.
  assert (V0 : (40 <= rn c)%Q) by (rewrite <- I40; apply (rn_monotone rn R); lra).
  assert (V1 : (rn c <= 120)%Q) by (rewrite <- I120; apply (rn_monotone rn R); lra).
  split; [exact V0|]. split; [exact V1|].
  assert (Na : (Qabs (a - u * 80) <= 1 # 8796093022208)%Q).
  { apply (rn_near rn R). rewrite Qabs_pos; lra. }
  assert (Nb : (Qabs (b - (40 + a)) <= 1 # 8796093022208)%Q).
  { apply (rn_near rn R). rewrite Qabs_pos; lra. }
  pose proof (round2_near b) as [Nc0 Nc1]. fold c in Nc0, Nc1.
  assert (Nv : (Qabs (rn c - c) <= 1 # 8796093022208)%Q).
  { apply (rn_near rn R). rewrite Qabs_pos; lra. }
  apply Qabs_Qle_condition in Na, Nb, Nv. apply Qabs_Qle_condition.
  destruct Na, Nb, Nv. split; lra.
Qed.

(** The rounding to doubles shows in the result: at this draw the exact
    value of [40 + 80 u] lies below the tie [40.005], while the sum
    computed on doubles lies above it. *)
Example observed_value_on_doubles :
  let u := (2305843009213691 # 36893488147419103232)%Q in
  (round2 (40 + 80 * u) == 40)%Q
  /\ observed_value nearest_double u = nearest_double (4001 # 100).
Proof. split; vm_compute; reflexivity. Qed.

(** C3, as amended: for [hours = N >= 0], under a clock that never runs
    backwards, if the oldest timestamp, the current time minus [N] hours,
    is a representable [datetime], the observed-series generator returns
    exactly [N + 1] points in chronological order, oldest first: the point
    at position [i] is stamped with the clock reading taken when it is
    produced minus [N - i] hours (so the first point lies [N] hours back,
    the last one at the current time, and each point is at least one hour
    after the one before), its value is [round(40 + 80 u, 2)] computed on
    doubles from the [i]-th fresh draw [u], which lies in [[40, 120]]
    within 0.01 of [40 + 80 u], and its quality flag is ["good"].  If the
    oldest timestamp would precede [datetime.min], the call raises
    [OverflowError] at its first point. *)
Theorem generate_timeseries_points (to_double : Q -> Q) (st : option string)
    (p : string) (N : Z) (w : World) :
  double_rounding to_double ->
  0 <= N ->
  valid_random w ->
  monotone_clock w ->
  (forall i : nat, (i < Z.to_nat (N + 1))%nat -> utc w (i + reads w) <= datetime_max) ->
  (datetime_min <= utc w (reads w) - timedelta N ->
   exists pts,
     generate_timeseries to_double st p N w
     = (Ok pts, advance (Z.to_nat (N + 1)) (Z.to_nat (N + 1)) w)
     /\ Z.of_nat (length pts) = N + 1
     /\ (forall i, (i < Z.to_nat (N + 1))%nat ->
           exists pt,
             nth_error pts i = Some pt
             /\ TimeSeriesPoint.ts pt
                = utc w (i + reads w)%nat - timedelta (N - Z.of_nat i)
             /\ TimeSeriesPoint.value pt
                = observed_value to_double (rnd w (i + draws w)%nat)
             /\ (40 <= TimeSeriesPoint.value pt)%Q
             /\ (TimeSeriesPoint.value pt <= 120)%Q
             /\ (Qabs (TimeSeriesPoint.value pt - (40 + 80 * rnd w (i + draws w)%nat))
                 <= 1 # 100)%Q
             /\ TimeSeriesPoint.qa_flag pt = "good"%string)
     /\ (forall i t1 t2,
           nth_error (map TimeSeriesPoint.ts pts) i = Some t1 ->
           nth_error (map TimeSeriesPoint.ts pts) (S i) = Some t2 ->
           t1 < t2 /\ HOUR <= t2 - t1))
  /\ (utc w (reads w) - timedelta N < datetime_min ->
      generate_timeseries to_double st p N w
      = (Raise OverflowError, advance 1 0 w)).
Proof.
  intros R HN V M Max. split.
  - intros Min.
    pose proof (span_from_first N w HN M Max Min) as Span.
    eexists. split; [apply generate_timeseries_runs, Span|].
    set (pts := trace _ _ _ _).
    assert (Len : length pts = Z.to_nat (N + 1)).
    { unfold pts. rewrite trace_length. apply range_down_length. }
    split; [rewrite Len; lia|]. split.
    + intros i Hi. eexists. split.
      * unfold pts.
        rewrite (trace_nth _ _ _ _ _ _ (range_down_nth N i Hi)), iter_tick.
        reflexivity.
      * cbn [timeseries_item advance TimeSeriesPoint.ts TimeSeriesPoint.value
               TimeSeriesPoint.qa_flag utc reads rnd draws].
        destruct (V (i + draws w)%nat) as [V0 V1].
        destruct (observed_value_range to_double _ R V0 V1) as (O0 & O1 & O2).
        repeat split; assumption.
    + intros i t1 t2 H1 H2.
      assert (Hlt : (S i < Z.to_nat (N + 1))%nat).
      { rewrite <- Len, <- (length_map TimeSeriesPoint.ts).
        apply nth_error_Some. congruence. }
      unfold pts in H1, H2.
      rewrite timeseries_ts_nth in H1 by lia.
      rewrite timeseries_ts_nth in H2 by lia.
      injection H1 as <-. injection H2 as <-.
      pose proof (M (i + reads w)%nat) as Mi. cbn [Nat.add].
      unfold timedelta, HOUR in *. lia.
  - intros Under. apply generate_timeseries_overflow; [exact HN|].
    unfold stamp_ok, representable.
    assert (L : (datetime_min <=? utc w (reads w) - timedelta N) = false)
      by (apply Z.leb_gt; exact Under).
    rewrite L. cbn [andb]. apply andb_false_r.
Qed.

Lemma generate_timeseries_points_witness :
  datetime_min <= utc sample_world (reads sample_world) - timedelta 2
  /\ exists pts,
     generate_timeseries nearest_double None "PM2.5" 2 sample_world
     = (Ok pts, advance (Z.to_nat (2 + 1)) (Z.to_nat (2 + 1)) sample_world)
     /\ Z.of_nat (length pts) = 2 + 1
     /\ (forall i, (i < Z.to_nat (2 + 1))%nat ->
           exists pt,
             nth_error pts i = Some pt
             /\ TimeSeriesPoint.ts pt
                = utc sample_world (i + reads sample_world)%nat - timedelta (2 - Z.of_nat i)
             /\ TimeSeriesPoint.value pt
                = observed_value nearest_double (rnd sample_world (i + draws sample_world)%nat)
             /\ (40 <= TimeSeriesPoint.value pt)%Q
             /\ (TimeSeriesPoint.value pt <= 120)%Q
             /\ (Qabs (TimeSeriesPoint.value pt - (40 + 80 * rnd sample_world (i + draws sample_world)%nat))
                 <= 1 # 100)%Q
             /\ TimeSeriesPoint.qa_flag pt = "good"%string)
     /\ (forall i t1 t2,
           nth_error (map TimeSeriesPoint.ts pts) i = Some t1 ->
           nth_error (map TimeSeriesPoint.ts pts) (S i) = Some t2 ->
           t1 < t2 /\ HOUR <= t2 - t1).
Proof.
  assert (Min : datetime_min <= utc sample_world (reads sample_world) - timedelta 2).
  { cbn [utc reads sample_world]. unfold T0, datetime_min, timedelta, HOUR. lia. }
  split; [exact Min|].
  apply (generate_timeseries_points nearest_double None "PM2.5" 2 sample_world).
  - exact nearest_rounding.
  - lia.
  - exact sample_world_valid.
  - exact sample_world_monotone.
  - intros i Hi. cbn [utc reads sample_world]. unfold T0, datetime_max. lia.
  - exact Min.
Defined.

Lemma frozen_span (N : Z) :
  0 <= N <= 1000 -> span_representable N frozen_world.
Proof.
  intros H. apply span_from_first; [lia | | | ].
  - intros k. cbn [utc frozen_world]. lia.
  - intros i _. cbn [utc frozen_world]. unfold T0, datetime_max. lia.
  - cbn [utc reads frozen_world]. unfold T0, datetime_min, timedelta, HOUR. lia.
Qed.

(** C3, as stated, fails: for [hours = 2] under a clock that stands still
    at [T0], the first point lies two hours back and the last one at [T0];
    the series does not start at the current time and step backwards. *)
Lemma timeseries_runs_forward :
  exists pts w',
    generate_timeseries nearest_double None "PM2.5" 2 frozen_world = (Ok pts, w')
    /\ map TimeSeriesPoint.ts pts = [T0 - 2 * HOUR; T0 - HOUR; T0]
    /\ backward_from T0 2 = [T0; T0 - HOUR; T0 - 2 * HOUR]
    /\ map TimeSeriesPoint.ts pts <> backward_from T0 2.
Proof.
  eexists. eexists.
  split; [apply generate_timeseries_runs, frozen_span; lia|].
  split; [reflexivity|]. split; [reflexivity|].
  intros H. vm_compute in H. discriminate H.
Qed.

(** ** Risk scores *)

Lemma risk_score_runs (pollutant : string) (w : World) :
  risk_score pollutant w = (Ok (risk_item pollutant w), drew w).
Proof. reflexivity. Qed.

Lemma generate_risk_scores_runs (region : string) (w : World) :
  generate_risk_scores region w
  = (Ok (trace risk_item drew ["PM2.5"; "PM10"; "NO2"; "O3"]%string w),
     advance 0 4 w).
Proof.
  unfold generate_risk_scores.
  rewrite (for_each_trace _ _ _ risk_score_runs), iter_drew. reflexivity.
Qed.

Lemma risk_category_cuts (score : Q) :
  (risk_category score = "Low"%string <-> (score < 33)%Q)
  /\ (risk_category score = "Moderate"%string <-> (33 <= score)%Q /\ (score < 66)%Q)
  /\ (risk_category score = "High"%string <-> (66 <= score)%Q).
Proof.
  unfold risk_category.
  destruct (Qlt_le_dec score 33) as [A|A]; [|destruct (Qlt_le_dec score 66) as [B|B]];
    repeat split; intros;
    repeat match goal with H : _ /\ _ |- _ => destruct H end;
    try discriminate; try reflexivity; lra.
Qed.

(** C5: in every risk record the category is determined by the score:
    ["Low"] exactly when the score is below 33, ["Moderate"] exactly when
    it is at least 33 and below 66, ["High"] exactly when it is at least
    66; the three cases exclude one another and cover every score. *)
Theorem risk_category_cut_points (region : string) (w : World) :
  exists scores w',
    generate_risk_scores region w = (Ok scores, w')
    /\ length scores = 4%nat
    /\ Forall
         (fun s =>
            RiskScore.category s = risk_category (RiskScore.score_0_100 s)
            /\ (RiskScore.category s = "Low"%string
                <-> (RiskScore.score_0_100 s < 33)%Q)
            /\ (RiskScore.category s = "Moderate"%string
                <-> (33 <= RiskScore.score_0_100 s)%Q
                    /\ (RiskScore.score_0_100 s < 66)%Q)
            /\ (RiskScore.category s = "High"%string
                <-> (66 <= RiskScore.score_0_100 s)%Q))
         scores.
Proof.
  eexists. eexists. split; [apply generate_risk_scores_runs|].
  split; [reflexivity|].
  apply trace_Forall. intros pollutant w'. split; [reflexivity|].
  apply risk_category_cuts.
Qed.

(** ** Attribution *)

Lemma draw_magnitudes (w : World) :
  for_each (fun _ : string => uniform 10 40) attribution_sources w
  = (Ok (magnitudes w), advance 0 5 w).
Proof.
  rewrite (for_each_trace _
             (fun (_ : string) w' => (10 + (40 - 10) * rnd w' (draws w'))%Q) drew)
    by reflexivity.
  rewrite iter_drew. reflexivity.
Qed.

Lemma entries_nonzero_total (total : Q) (svs : list (string * Q)) (w : World) :
  Qeq_bool total 0 = false ->
  for_each (attribution_entry total) svs w = (Ok (map (share total) svs), w).
Proof.
  intros NZ. induction svs as [|[s v] svs IH]; [reflexivity|].
  cbn [for_each map]. unfold bind at 1. unfold attribution_entry at 1.
  unfold bind at 1, py_div. rewrite NZ. cbn [ret].
  unfold bind at 1. cbn [ret]. unfold bind at 1. rewrite IH. reflexivity.
Qed.

(** Without a guard, a zero total makes the first share computation raise. *)
Lemma entries_zero_total (total : Q) (sv : string * Q) (svs : list (string * Q))
    (w : World) :
  Qeq_bool total 0 = true ->
  for_each (attribution_entry total) (sv :: svs) w = (Raise ZeroDivisionError, w).
Proof.
  intros Z0. destruct sv as [s v]. cbn [for_each].
  unfold bind at 1. unfold attribution_entry. unfold bind at 1, py_div.
  rewrite Z0. reflexivity.
Qed.

Lemma py_sum_fold_right (xs : list Q) (a : Q) :
  (fold_left Qplus xs a == a + fold_right Qplus 0 xs)%Q.
Proof.
  revert a. induction xs as [|x xs IH]; intros a; cbn [fold_left fold_right].
  - ring.
  - rewrite IH. ring.
Qed.

Lemma exact_shares_sum (total : Q) (vals : list Q) :
  ~ (total == 0)%Q ->
  (fold_right Qplus 0 (map (fun v => v / total * 100) vals)
   == fold_right Qplus 0 vals / total * 100)%Q.
Proof.
  intros NZ. induction vals as [|v vals IH]; cbn [map fold_right].
  - field. exact NZ.
  - rewrite IH. field. exact NZ.
Qed.

Lemma rounded_sum_near (f : Q -> Q) (vals : list Q) :
  (fold_right Qplus 0 (map f vals) - inject_Z (Z.of_nat (length vals)) * (1 # 200)
   <= fold_right Qplus 0 (map (fun v => round2 (f v)) vals))%Q
  /\ (fold_right Qplus 0 (map (fun v => round2 (f v)) vals)
      <= fold_right Qplus 0 (map f vals)
         + inject_Z (Z.of_nat (length vals)) * (1 # 200))%Q.
Proof.
  induction vals as [|v vals [IH1 IH2]].
  - cbn. change (inject_Z 0) with 0%Q. split; lra.
  - cbn [map fold_right length]. rewrite Nat2Z.inj_succ.
    unfold Z.succ. rewrite inject_Z_plus. change (inject_Z 1) with 1%Q.
    pose proof (round2_near (f v)) as [R1 R2]. split; lra.
Qed.

(** The rounded percentage shares of any magnitudes with a non-zero total
    add up to 100 within half a cent per share. *)
Lemma percent_shares_sum (vals : list Q) :
  ~ (py_sum vals == 0)%Q ->
  (Qabs (py_sum (map (fun v => round2 (v / py_sum vals * 100)) vals) - 100)
   <= inject_Z (Z.of_nat (length vals)) * (1 # 200))%Q.
Proof.
  intros NZ. set (total := py_sum vals) in *.
  apply Qabs_Qle_condition. unfold py_sum at 1 2.
  rewrite py_sum_fold_right.
  pose proof (rounded_sum_near (fun v => v / total * 100)%Q vals) as [L U].
  rewrite (exact_shares_sum total vals NZ) in L, U.
  assert (E : (fold_right Qplus 0 vals / total * 100 == 100)%Q).
  { assert (T : (total == fold_right Qplus 0 vals)%Q).
    { unfold total, py_sum. rewrite py_sum_fold_right. ring. }
    rewrite <- T. field. exact NZ. }
  rewrite E in L, U. split; lra.
Qed.

Lemma magnitudes_total (w : World) :
  valid_random w -> (50 <= py_sum (magnitudes w))%Q.
Proof.
  intros V. unfold py_sum. rewrite py_sum_fold_right.
  cbn [magnitudes map seq fold_right].
  pose proof (V (0 + draws w)%nat) as [? _]. pose proof (V (1 + draws w)%nat) as [? _].
  pose proof (V (2 + draws w)%nat) as [? _]. pose proof (V (3 + draws w)%nat) as [? _].
  pose proof (V (4 + draws w)%nat) as [? _]. lra.
Qed.

Lemma generate_attribution_runs (p : string) (w : World) :
  valid_random w ->
  generate_attribution p w
  = (Ok (AttributionResponse.mk p (round2 (py_sum (magnitudes w)))
           (map (share (py_sum (magnitudes w)))
              (combine attribution_sources (magnitudes w)))),
     advance 0 5 w).
Proof.
  intros V. unfold generate_attribution, bind at 1.
  rewrite draw_magnitudes. unfold attribution_of, bind at 1.
  rewrite entries_nonzero_total; [reflexivity|].
  pose proof (magnitudes_total w V) as T.
  destruct (Qeq_bool (py_sum (magnitudes w)) 0) eqn:E; [|reflexivity].
  apply Qeq_bool_eq in E. lra.
Qed.

Lemma breakdown_percents (total : Q) (vals : list Q) :
  length vals = 5%nat ->
  map AttributionBreakdown.contribution_percent
    (map (share total) (combine attribution_sources vals))
  = map (fun v => round2 (v / total * 100)) vals.
Proof.
  intros L.
  destruct vals as [|a [|b [|c [|d [|e [|]]]]]]; try discriminate L. reflexivity.
Qed.

Lemma magnitudes_length (w : World) : length (magnitudes w) = 5%nat.
Proof. reflexivity. Qed.

Lemma share_restates (total : Q) (svs : list (string * Q)) :
  Forall (fun b => AttributionBreakdown.value b
                   = AttributionBreakdown.contribution_percent b)
    (map (share total) svs).
Proof. induction svs as [|sv svs IH]; constructor; [reflexivity | exact IH]. Qed.

(** C4: the five percentages of an attribution response add up to 100
    within 0.1, and every entry's value field equals its percentage. *)
Theorem attribution_percentages (p : string) (w : World) :
  valid_random w ->
  exists resp,
    generate_attribution p w = (Ok resp, advance 0 5 w)
    /\ length (AttributionResponse.breakdown resp) = 5%nat
    /\ (Qabs (py_sum (map AttributionBreakdown.contribution_percent
                        (AttributionResponse.breakdown resp)) - 100)
        <= 1 # 10)%Q
    /\ Forall (fun b => AttributionBreakdown.value b
                        = AttributionBreakdown.contribution_percent b)
         (AttributionResponse.breakdown resp).
Proof.
  intros V. eexists. split; [apply generate_attribution_runs, V|].
  cbn [AttributionResponse.breakdown]. split; [reflexivity|]. split.
  - rewrite breakdown_percents by apply magnitudes_length.
    pose proof (magnitudes_total w V) as T.
    assert (NZ : ~ (py_sum (magnitudes w) == 0)%Q) by lra.
    pose proof (percent_shares_sum (magnitudes w) NZ) as S.
    rewrite magnitudes_length in S.
    change (inject_Z (Z.of_nat 5)) with 5%Q in S. lra.
  - apply share_restates.
Qed.

Lemma attribution_percentages_witness :
  exists resp,
    generate_attribution "PM2.5" sample_world = (Ok resp, advance 0 5 sample_world)
    /\ length (AttributionResponse.breakdown resp) = 5%nat
    /\ (Qabs (py_sum (map AttributionBreakdown.contribution_percent
                        (AttributionResponse.breakdown resp)) - 100)
        <= 1 # 10)%Q
    /\ Forall (fun b => AttributionBreakdown.value b
                        = AttributionBreakdown.contribution_percent b)
         (AttributionResponse.breakdown resp).
Proof.
  apply (attribution_percentages "PM2.5" sample_world).
  exact sample_world_valid.
Defined.



(** ** Catalog queries *)

Lemma truthy_given (o : option string) : o <> Some EmptyString -> truthy o = o.
Proof.
  intros H. destruct o as [s|]; [|reflexivity]. cbn.
  destruct (String.eqb_spec s EmptyString) as [->|_]; [congruence | reflexivity].
Qed.

Lemma py_slice_page {A} (xs : list A) (offset limit : Z) :
  0 <= offset -> 0 <= limit ->
  py_slice xs offset (offset + limit)
  = firstn (Z.to_nat limit) (skipn (Z.to_nat offset) xs).
Proof.
  intros Ho Hl. unfold py_slice, slice_index.
  destruct (Z.ltb_spec offset 0) as [?|_]; [lia|].
  destruct (Z.ltb_spec (offset + limit) 0) as [?|_]; [lia|].
  set (len := length xs).
  destruct (Z_le_gt_dec (Z.of_nat len) offset) as [Big|Small].
  - rewrite !Z.min_r by lia. rewrite Z.sub_diag.
    rewrite !skipn_all2 by (fold len; lia).
    rewrite !firstn_nil. reflexivity.
  - rewrite (Z.min_l offset) by lia.
    destruct (Z_le_gt_dec (offset + limit) (Z.of_nat len)) as [Fit|Over].
    + rewrite Z.min_l by lia. f_equal. lia.
    + rewrite Z.min_r by lia.
      rewrite !firstn_all2; [reflexivity| |]; rewrite length_skipn; fold len; lia.
Qed.

(** C9: with a region provided or absent, and a non-negative limit and
    offset, [list_stations] returns the collection filtered by exact region
    match, then sliced by offset and limit; an offset at or beyond the
    collection size gives the empty page; on the two seeded stations,
    region "Delhi NCR" with limit 1 and offset 0 gives the first station,
    and offset 5 gives the empty page. *)
Theorem list_stations_pages (stations : list Station.t) (region : option string)
    (limit offset : Z) :
  0 <= limit ->
  0 <= offset ->
  region <> Some EmptyString ->
  list_stations stations region limit offset
  = station_page stations region (Z.to_nat limit) (Z.to_nat offset)
  /\ (Z.of_nat (length stations) <= offset ->
      list_stations stations region limit offset = [])
  /\ list_stations _STATIONS (Some "Delhi NCR"%string) 1 0 = firstn 1 _STATIONS
  /\ list_stations _STATIONS region limit 5 = [].
Proof.
  intros Hl Ho Hr.
  assert (Page : forall sts off, 0 <= off ->
            list_stations sts region limit off
            = station_page sts region (Z.to_nat limit) (Z.to_nat off)).
  { intros sts off Hoff. unfold list_stations, station_page.
    rewrite (truthy_given region Hr). apply py_slice_page; assumption. }
  assert (Beyond : forall sts off, Z.of_nat (length sts) <= off ->
            list_stations sts region limit off = []).
  { intros sts off Hoff. rewrite Page by lia. unfold station_page.
    rewrite skipn_all2; [apply firstn_nil|].
    destruct region as [r|]; [|lia].
    pose proof (filter_length_le (fun s => String.eqb (Station.region s) r) sts).
    lia. }
  split; [apply Page, Ho|]. split; [apply Beyond|].
  split; [reflexivity|]. apply Beyond. cbn. lia.
Qed.

Lemma list_stations_pages_witness :
  list_stations _STATIONS (Some "Delhi NCR"%string) 1 1
  = station_page _STATIONS (Some "Delhi NCR"%string) (Z.to_nat 1) (Z.to_nat 1)
  /\ (Z.of_nat (length _STATIONS) <= 1 ->
      list_stations _STATIONS (Some "Delhi NCR"%string) 1 1 = [])
  /\ list_stations _STATIONS (Some "Delhi NCR"%string) 1 0 = firstn 1 _STATIONS
  /\ list_stations _STATIONS (Some "Delhi NCR"%string) 1 5 = [].
Proof.
  apply (list_stations_pages _STATIONS (Some "Delhi NCR"%string) 1 1).
  - lia.
  - lia.
  - discriminate.
Defined.

(** An empty region string is falsy and leaves the collection unfiltered. *)
Lemma list_stations_empty_region (stations : list Station.t) (limit offset : Z) :
  list_stations stations (Some EmptyString) limit offset
  = list_stations stations None limit offset.
Proof. reflexivity. Qed.

Lemma filter_twice {A} (f g : A -> bool) (xs : list A) :
  filter f (filter g xs) = filter (fun x => g x && f x) xs.
Proof.
  induction xs as [|x xs IH]; [reflexivity|]. cbn.
  destruct (g x); cbn; [destruct (f x)|]; rewrite IH; reflexivity.
Qed.

Lemma filter_all {A} (xs : list A) : filter (fun _ => true) xs = xs.
Proof. induction xs as [|x xs IH]; cbn; [|rewrite IH]; reflexivity. Qed.

(** A negative offset counts from the end of the collection, as Python
    slices do. *)
Example list_stations_negative_offset :
  list_stations _STATIONS None 50 (-1) = skipn 1 _STATIONS.
Proof. reflexivity. Qed.

Lemma resolves_existsb (stations : list Station.t) (r : string) (a : AlertRecord.t) :
  existsb (fun s => String.eqb (Station.region s) r
                    && String.eqb (Station.station_id s) (AlertRecord.station_id a))
    stations = true
  <-> resolves_in stations r a.
Proof.
  rewrite existsb_exists. unfold resolves_in.
  split; intros (s & I & H); exists s; (split; [exact I|]).
  - apply andb_true_iff in H as [R S].
    apply String.eqb_eq in R, S. auto.
  - destruct H as [S R]. apply andb_true_iff.
    split; apply String.eqb_eq; assumption.
Qed.

(** C8: with a region filter given (or none) and a cutoff given (or none),
    [list_alerts] returns exactly the alerts whose station, looked up by id
    in the station collection, has that region, and whose timestamp is at
    or after the cutoff; an alert whose station id resolves to no station
    is left out of a region-filtered result, and the call always returns
    a sub-collection of the alerts. *)
Theorem list_alerts_filters (stations : list Station.t)
    (alerts : list AlertRecord.t) (region : option string)
    (since : option datetime) :
  region <> Some EmptyString ->
  (forall a,
      In a (list_alerts stations alerts region since)
      <-> In a alerts
          /\ (forall r, region = Some r -> resolves_in stations r a)
          /\ (forall t, since = Some t -> t <= AlertRecord.ts a))
  /\ (forall r a,
        region = Some r ->
        (forall s, In s stations ->
                   Station.station_id s <> AlertRecord.station_id a) ->
        ~ In a (list_alerts stations alerts region since))
  /\ exists keep, list_alerts stations alerts region since = filter keep alerts.
Proof.
  intros Hr.
  assert (Char : forall a,
      In a (list_alerts stations alerts region since)
      <-> In a alerts
          /\ (forall r, region = Some r -> resolves_in stations r a)
          /\ (forall t, since = Some t -> t <= AlertRecord.ts a)).
  { intros a. unfold list_alerts. rewrite (truthy_given region Hr).
    destruct region as [r|], since as [t|]; rewrite ?filter_In, ?resolves_existsb,
      ?Z.leb_le.
    - split.
      + intros [[I R] T]. repeat split; [exact I | | ]; intros ? [= <-]; assumption.
      + intros (I & R & T). auto.
    - split.
      + intros [I R]. repeat split; [exact I | | ]; intros ? [=]. subst. exact R.
      + intros (I & R & _). auto.
    - split.
      + intros [I T]. repeat split; [exact I | | ]; intros ? [=]. subst. exact T.
      + intros (I & _ & T). auto.
    - split; [intros I; repeat split; [exact I | |]; intros ? [=] | intros [I _]; exact I]. }
  split; [exact Char|]. split.
  - intros r a -> Dangling I. apply Char in I as (_ & R & _).
    destruct (R r eq_refl) as (s & Is & Id & _). exact (Dangling s Is Id).
  - unfold list_alerts. rewrite (truthy_given region Hr).
    destruct region as [r|], since as [t|].
    + rewrite filter_twice. eexists. reflexivity.
    + eexists. reflexivity.
    + eexists. reflexivity.
    + exists (fun _ => true). symmetry. apply filter_all.
Qed.

Lemma list_alerts_filters_witness :
  (forall a,
      In a (list_alerts _STATIONS (dangling_alert :: _ALERTS T0)
              (Some "Delhi NCR"%string) (Some T0))
      <-> In a (dangling_alert :: _ALERTS T0)
          /\ (forall r, Some "Delhi NCR"%string = Some r -> resolves_in _STATIONS r a)
          /\ (forall t, Some T0 = Some t -> t <= AlertRecord.ts a))
  /\ (forall r a,
        Some "Delhi NCR"%string = Some r ->
        (forall s, In s _STATIONS ->
                   Station.station_id s <> AlertRecord.station_id a) ->
        ~ In a (list_alerts _STATIONS (dangling_alert :: _ALERTS T0)
                  (Some "Delhi NCR"%string) (Some T0)))
  /\ exists keep,
       list_alerts _STATIONS (dangling_alert :: _ALERTS T0)
         (Some "Delhi NCR"%string) (Some T0)
       = filter keep (dangling_alert :: _ALERTS T0).
Proof.
  apply (list_alerts_filters _STATIONS (dangling_alert :: _ALERTS T0)
           (Some "Delhi NCR"%string) (Some T0)).
  discriminate.
Defined.

Example list_alerts_seeded_region (loaded_at : datetime) :
  list_alerts _STATIONS (_ALERTS loaded_at) (Some "Delhi NCR"%string) None
  = _ALERTS loaded_at
  /\ list_alerts _STATIONS (_ALERTS loaded_at) (Some "Nowhere"%string) None = [].
Proof. split; reflexivity. Qed.

Example list_alerts_skips_dangling :
  list_alerts _STATIONS (dangling_alert :: _ALERTS T0) (Some "Delhi NCR"%string) None
  = _ALERTS T0.
Proof. reflexivity. Qed.

(** An empty region string is falsy and leaves the alerts unfiltered. *)
Lemma list_alerts_empty_region (stations : list Station.t)
    (alerts : list AlertRecord.t) (since : option datetime) :
  list_alerts stations alerts (Some EmptyString) since
  = list_alerts stations alerts None since.
Proof. reflexivity. Qed.

(** ** Pollutant family detection *)

Lemma upper_pm (rest : string) :
  upper ("pm" ++ rest) = ("PM" ++ upper rest)%string.
Proof. reflexivity. Qed.

(** C10: for every label that begins with lower-case "pm", the forecast
    generator uses the particulate baseline 80 (it upper-cases the label
    before testing the prefix), while the forecast endpoint, whose prefix
    test is case-sensitive, reports the units "ppb": one response pairs
    forecasts computed from the particulate baseline with non-particulate
    units. *)
Theorem pm_prefix_case_mismatch (math_sin : Q -> Q) (st : option string)
    (rest horizon : string) (w : World) :
  forecast_base ("pm" ++ rest) = 80%Q
  /\ units_of ("pm" ++ rest) = "ppb"%string
  /\ units_of ("PM" ++ rest) = "ug/m3"%string
  /\ exists resp w',
       get_forecasts math_sin st ("pm" ++ rest) horizon w = (Ok resp, w')
       /\ ForecastResponse.units resp = "ppb"%string
       /\ ForecastResponse.forecasts resp
          = trace (forecast_item math_sin 80) tick (range (horizon_hours horizon)) w
       /\ generate_forecasts math_sin (default_station st) ("PM" ++ rest)
            (horizon_hours horizon) w
          = (Ok (ForecastResponse.forecasts resp), w').
Proof.
  assert (B : forall s, forecast_base (String "p" (String "m" s)) = 80%Q).
  { intros s. unfold forecast_base, startswith. cbn.
    destruct (upper s); reflexivity. }
  assert (B' : forall s, forecast_base (String "P" (String "M" s)) = 80%Q).
  { intros s. unfold forecast_base, startswith. cbn.
    destruct (upper s); reflexivity. }
  split; [apply B|]. split; [reflexivity|]. split.
  { unfold units_of, startswith. cbn. destruct rest; reflexivity. }
  eexists. eexists. split.
  - unfold get_forecasts, bind. rewrite generate_forecasts_runs. reflexivity.
  - cbn [ForecastResponse.units ForecastResponse.forecasts].
    split; [reflexivity|]. split.
    + change ("pm" ++ rest)%string with (String "p" (String "m" rest)).
      rewrite B. reflexivity.
    + rewrite generate_forecasts_runs.
      change ("PM" ++ rest)%string with (String "P" (String "M" rest)).
      change ("pm" ++ rest)%string with (String "p" (String "m" rest)).
      rewrite B, B'. reflexivity.
Qed.

(** ** Chart endpoints *)

Lemma max_by_key {A} (key : A -> Q) (x : A) (xs : list A) :
  key (max_by key x xs) = max_by (fun v => v) (key x) (map key xs).
Proof.
  unfold max_by. revert x. induction xs as [|y xs IH]; intros x; [reflexivity|].
  cbn [map fold_left]. rewrite IH.
  destruct (Qle_bool (key y) (key x)); reflexivity.
Qed.

Lemma max_by_in {A} (key : A -> Q) (x : A) (xs : list A) :
  In (max_by key x xs) (x :: xs).
Proof.
  unfold max_by. revert x. induction xs as [|y xs IH]; intros x; [left; reflexivity|].
  cbn [fold_left].
  destruct (IH (if Qle_bool (key y) (key x) then x else y)) as [E|I].
  - rewrite <- E. destruct (Qle_bool (key y) (key x));
      [left | right; left]; reflexivity.
  - right; right; exact I.
Qed.

Lemma combine_maps {A B C} (f : A -> B) (g : A -> C) (xs : list A) :
  combine (map f xs) (map g xs) = map (fun x => (f x, g x)) xs.
Proof. induction xs as [|x xs IH]; cbn; [|rewrite IH]; reflexivity. Qed.

Lemma stack_widths (items : list (string * Q)) (left : Q) :
  map (fun seg : Q * Q * string => snd (fst seg)) (stack left items)
  = map snd items.
Proof.
  revert left. induction items as [|[s v] items IH]; intros left; [reflexivity|].
  cbn [stack map fst snd]. rewrite IH. reflexivity.
Qed.

Lemma stack_sources (items : list (string * Q)) (left : Q) :
  map (fun seg : Q * Q * string => snd seg) (stack left items) = map fst items.
Proof.
  revert left. induction items as [|[s v] items IH]; intros left; [reflexivity|].
  cbn [stack map fst snd]. rewrite IH. reflexivity.
Qed.

(** Each segment starts where the widths before it end. *)
Lemma stack_left (items : list (string * Q)) (left : Q) (i : nat)
    (seg : Q * Q * string) :
  nth_error (stack left items) i = Some seg ->
  (fst (fst seg) == left + fold_right Qplus 0 (map snd (firstn i items)))%Q.
Proof.
  revert left i. induction items as [|[s v] items IH]; intros left [|i] H;
    cbn in H; try discriminate H.
  - injection H as <-. cbn. ring.
  - rewrite (IH _ _ H). cbn [firstn map fold_right snd]. ring.
Qed.

Lemma bar_segments (b : list AttributionBreakdown.t) (title : string) :
  map (fun seg : Q * Q * string => snd (fst seg)) (Bar.segments (_attribution_png b title))
  = map AttributionBreakdown.contribution_percent b
  /\ map (fun seg : Q * Q * string => snd seg) (Bar.segments (_attribution_png b title))
     = map AttributionBreakdown.source b.
Proof.
  unfold _attribution_png; cbn [Bar.segments].
  rewrite combine_maps, stack_widths, stack_sources, !map_map.
  split; reflexivity.
Qed.

(** C1, as amended: every chart endpoint calls its generator exactly once
    and projects its output from that one result; the image endpoint and
    the document endpoint of a chart kind, run from the same state of the
    clock and the random source, carry the same numbers (line chart: same
    x and y; dial: same value, thresholds 33, 66, 100 in both; stacked bar:
    same percentages and sources in the same order).  Each endpoint call
    consumes fresh draws from the random source, so the image and the
    document are separate calls with separately generated values.  When a
    timestamp of the line chart cannot be formed, both of its endpoints
    raise the same [OverflowError]. *)
Theorem viz_outputs_project_generator (to_double : Q -> Q)
    (region pollutant : string) (hours : Z) (w : World) :
  valid_random w ->
  (exists res w1,
      generate_timeseries to_double None pollutant hours w = (res, w1)
      /\ (span_representable hours w -> exists series, res = Ok series)
      /\ match res with
         | Ok series =>
             exists plot doc,
               viz_timeseries_png to_double region pollutant hours w = (Ok plot, w1)
               /\ viz_timeseries_json to_double region pollutant hours w = (Ok doc, w1)
               /\ LinePlot.x plot = map TimeSeriesPoint.ts series
               /\ LinePlot.y plot = map TimeSeriesPoint.value series
               /\ LineDoc.x doc = map isoformat (LinePlot.x plot)
               /\ LineDoc.y doc = LinePlot.y plot
               /\ draws w1 = (length series + draws w)%nat
         | Raise e =>
             e = OverflowError
             /\ viz_timeseries_png to_double region pollutant hours w = (Raise e, w1)
             /\ viz_timeseries_json to_double region pollutant hours w = (Raise e, w1)
         end)
  /\ (exists scores w2 dial ddoc,
        generate_risk_scores region w = (Ok scores, w2)
        /\ viz_risk_dial_png region w = (Ok dial, w2)
        /\ viz_risk_dial_json region w = (Ok ddoc, w2)
        /\ In (DialDoc.value ddoc) (map RiskScore.score_0_100 scores)
        /\ Dial.needle dial = (180 - 180 * (DialDoc.value ddoc / 100))%Q
        /\ Dial.text dial = round_half_even (DialDoc.value ddoc)
        /\ [DialDoc.low ddoc; DialDoc.med ddoc; DialDoc.high ddoc]
           = map (fun s : Q * Q * string => snd (fst s)) dial_sectors
        /\ Dial.wedges dial
           = map (fun s : Q * Q * string =>
                    ((180 - 180 * (snd (fst s) / 100))%Q,
                     (180 - 180 * (fst (fst s) / 100))%Q, snd s))
               dial_sectors
        /\ draws w2 = (4 + draws w)%nat)
  /\ (exists attr w3 bar bdoc,
        generate_attribution pollutant w = (Ok attr, w3)
        /\ viz_attribution_png pollutant w = (Ok bar, w3)
        /\ viz_attribution_json pollutant w = (Ok bdoc, w3)
        /\ BarDoc.x bdoc
           = map AttributionBreakdown.contribution_percent
               (AttributionResponse.breakdown attr)
        /\ map (fun seg : Q * Q * string => snd (fst seg)) (Bar.segments bar)
           = BarDoc.x bdoc
        /\ map (fun seg : Q * Q * string => snd seg) (Bar.segments bar)
           = BarDoc.name bdoc
        /\ draws w3 = (5 + draws w)%nat).
Proof.
  intros V. split; [|split].
  - destruct (generate_timeseries to_double None pollutant hours w)
      as [res w1] eqn:G.
    exists res, w1. split; [reflexivity|]. split.
    { intros Span. rewrite (generate_timeseries_runs _ _ _ _ _ Span) in G.
      injection G as <- _. eexists. reflexivity. }
    pose proof G as G'. unfold generate_timeseries in G'.
    apply for_each_timeseries_outcome in G'.
    destruct res as [series|e].
    + destruct G' as [Es Ew]. eexists. eexists.
      split; [unfold viz_timeseries_png, bind; rewrite G; reflexivity|].
      split; [unfold viz_timeseries_json, bind; rewrite G; reflexivity|].
      cbn [LinePlot.x LinePlot.y LineDoc.x LineDoc.y _line_plot_png].
      repeat split; try reflexivity.
      * rewrite map_map. reflexivity.
      * rewrite Ew, Es, iter_tick, trace_length. reflexivity.
    + split; [exact G'|].
      split; [unfold viz_timeseries_png, bind; rewrite G; reflexivity|].
      unfold viz_timeseries_json, bind. rewrite G. reflexivity.
  - eexists. eexists. eexists. eexists.
    split; [apply generate_risk_scores_runs|].
    split; [unfold viz_risk_dial_png, bind;
            rewrite generate_risk_scores_runs; reflexivity|].
    split; [unfold viz_risk_dial_json, bind;
            rewrite generate_risk_scores_runs; reflexivity|].
    cbn [DialDoc.value DialDoc.low DialDoc.med DialDoc.high Dial.needle
           Dial.text Dial.wedges _risk_dial_png].
    set (s0 := risk_item "PM2.5" w).
    set (ss := trace risk_item drew ["PM10"; "NO2"; "O3"]%string (drew w)).
    split.
    { apply in_map. apply (max_by_in RiskScore.score_0_100 s0 ss). }
    split; [rewrite max_by_key; reflexivity|].
    split; [rewrite max_by_key; reflexivity|].
    repeat split; reflexivity.
  - eexists. eexists. eexists. eexists.
    split; [apply generate_attribution_runs, V|].
    split; [unfold viz_attribution_png, bind;
            rewrite (generate_attribution_runs _ _ V); reflexivity|].
    split; [unfold viz_attribution_json, bind;
            rewrite (generate_attribution_runs _ _ V); reflexivity|].
    cbn [BarDoc.x BarDoc.name AttributionResponse.breakdown].
    split; [reflexivity|].
    split; [apply bar_segments|]. split; [apply bar_segments|]. reflexivity.
Qed.

Lemma viz_outputs_project_generator_witness :
  (exists res w1,
      generate_timeseries nearest_double None "PM2.5" 24 sample_world = (res, w1)
      /\ (span_representable 24 sample_world -> exists series, res = Ok series)
      /\ match res with
         | Ok series =>
             exists plot doc,
               viz_timeseries_png nearest_double "Delhi NCR" "PM2.5" 24 sample_world = (Ok plot, w1)
               /\ viz_timeseries_json nearest_double "Delhi NCR" "PM2.5" 24 sample_world = (Ok doc, w1)
               /\ LinePlot.x plot = map TimeSeriesPoint.ts series
               /\ LinePlot.y plot = map TimeSeriesPoint.value series
               /\ LineDoc.x doc = map isoformat (LinePlot.x plot)
               /\ LineDoc.y doc = LinePlot.y plot
               /\ draws w1 = (length series + draws sample_world)%nat
         | Raise e =>
             e = OverflowError
             /\ viz_timeseries_png nearest_double "Delhi NCR" "PM2.5" 24 sample_world = (Raise e, w1)
             /\ viz_timeseries_json nearest_double "Delhi NCR" "PM2.5" 24 sample_world = (Raise e, w1)
         end)
  /\ (exists scores w2 dial ddoc,
        generate_risk_scores "Delhi NCR" sample_world = (Ok scores, w2)
        /\ viz_risk_dial_png "Delhi NCR" sample_world = (Ok dial, w2)
        /\ viz_risk_dial_json "Delhi NCR" sample_world = (Ok ddoc, w2)
        /\ In (DialDoc.value ddoc) (map RiskScore.score_0_100 scores)
        /\ Dial.needle dial = (180 - 180 * (DialDoc.value ddoc / 100))%Q
        /\ Dial.text dial = round_half_even (DialDoc.value ddoc)
        /\ [DialDoc.low ddoc; DialDoc.med ddoc; DialDoc.high ddoc]
           = map (fun s : Q * Q * string => snd (fst s)) dial_sectors
        /\ Dial.wedges dial
           = map (fun s : Q * Q * string =>
                    ((180 - 180 * (snd (fst s) / 100))%Q,
                     (180 - 180 * (fst (fst s) / 100))%Q, snd s))
               dial_sectors
        /\ draws w2 = (4 + draws sample_world)%nat)
  /\ (exists attr w3 bar bdoc,
        generate_attribution "PM2.5" sample_world = (Ok attr, w3)
        /\ viz_attribution_png "PM2.5" sample_world = (Ok bar, w3)
        /\ viz_attribution_json "PM2.5" sample_world = (Ok bdoc, w3)
        /\ BarDoc.x bdoc
           = map AttributionBreakdown.contribution_percent
               (AttributionResponse.breakdown attr)
        /\ map (fun seg : Q * Q * string => snd (fst seg)) (Bar.segments bar)
           = BarDoc.x bdoc
        /\ map (fun seg : Q * Q * string => snd seg) (Bar.segments bar)
           = BarDoc.name bdoc
        /\ draws w3 = (5 + draws sample_world)%nat).
Proof.
  apply (viz_outputs_project_generator nearest_double "Delhi NCR" "PM2.5" 24
           sample_world).
  exact sample_world_valid.
Defined.

(** C1, as stated, fails: the image endpoint and the document endpoint
    are separate calls, each of which runs the generator on fresh draws.
    Serving the same line-chart request first as an image and then as a
    document, under a clock that stands still, plots the values 40 and 48
    but declares 56 and 64. *)
Lemma viz_series_regenerated :
  exists plot w1 doc w2,
    viz_timeseries_png nearest_double "Delhi NCR" "PM2.5" 1 frozen_world
    = (Ok plot, w1)
    /\ viz_timeseries_json nearest_double "Delhi NCR" "PM2.5" 1 w1 = (Ok doc, w2)
    /\ LinePlot.y plot = [40; 48]%Q
    /\ LineDoc.y doc = [56; 64]%Q
    /\ ~ same_numbers (LineDoc.y doc) (LinePlot.y plot).
Proof.
  eexists. eexists. eexists. eexists.
  split; [vm_compute; reflexivity|]. split; [vm_compute; reflexivity|].
  split; [reflexivity|]. split; [reflexivity|].
  intros H. inversion H as [|a b l l' Hd _]. discriminate Hd.
Qed.

(** * Further properties of the service *)

(** ** Station lookup and paging *)

Lemma find_first {A} (f : A -> bool) (xs : list A) (x : A) :
  find f xs = Some x ->
  exists before after,
    xs = before ++ x :: after /\ f x = true
    /\ forall y, In y before -> f y = false.
Proof.
  induction xs as [|y xs IH]; intros H; [discriminate H|].
  cbn in H. destruct (f y) eqn:E.
  - injection H as <-. exists [], xs. repeat split; [exact E|]. intros ? [].
  - destruct (IH H) as (before & after & -> & Fx & B).
    exists (y :: before), after. repeat split; [exact Fx|].
    intros z [<-|I]; [exact E | apply B, I].
Qed.

(** [get_station] answers with the first station carrying the id, and
    with status 404 exactly when no station carries it. *)
Theorem get_station_lookup (stations : list Station.t) (id : string) :
  (forall s, get_station stations id = Found s ->
     Station.station_id s = id
     /\ exists before after,
          stations = before ++ s :: after
          /\ forall s', In s' before -> Station.station_id s' <> id)
  /\ ((forall s, In s stations -> Station.station_id s <> id)
      <-> get_station stations id = HTTPException 404 "station not found")
  /\ ((exists s, In s stations /\ Station.station_id s = id)
      <-> exists s, get_station stations id = Found s).
Proof.
  unfold get_station.
  destruct (find (fun s => String.eqb (Station.station_id s) id) stations)
    as [s0|] eqn:F.
  - destruct (find_first _ _ _ F) as (before & after & E & Id & B).
    apply String.eqb_eq in Id. split; [|split].
    + intros s [= <-]. split; [exact Id|]. exists before, after.
      split; [exact E|]. intros s' I Heq.
      apply B in I. apply String.eqb_neq in I. contradiction.
    + split; [|discriminate]. intros N. exfalso. apply (N s0); [|exact Id].
      rewrite E. apply in_elt.
    + split; [intros _; exists s0; reflexivity|].
      intros _. exists s0. split; [rewrite E; apply in_elt | exact Id].
  - split; [discriminate|]. split.
    + split; [reflexivity|]. intros _ s I Heq.
      pose proof (find_none _ _ F s I) as N. cbn in N.
      apply String.eqb_neq in N. contradiction.
    + split; [|intros [s H]; discriminate H].
      intros (s & I & Heq). pose proof (find_none _ _ F s I) as N. cbn in N.
      apply String.eqb_neq in N. contradiction.
Qed.

Lemma unique_key {A B} (f : A -> B) (xs : list A) (x y : A) :
  NoDup (map f xs) -> In x xs -> In y xs -> f x = f y -> x = y.
Proof.
  induction xs as [|z xs IH]; intros ND Ix Iy E; [destruct Ix|].
  cbn in ND. inversion ND as [|? ? NI ND']; subst.
  destruct Ix as [<-|Ix], Iy as [<-|Iy]; try reflexivity.
  - exfalso. apply NI. rewrite E. apply in_map, Iy.
  - exfalso. apply NI. rewrite <- E. apply in_map, Ix.
  - apply IH; assumption.
Qed.

(** With station ids that are unique, every alert that passes a region
    filter refers to a station that [get_station] finds, and that station
    lies in the region asked for. *)
Theorem listed_alert_station_found (stations : list Station.t)
    (alerts : list AlertRecord.t) (r : string) (since : option datetime)
    (a : AlertRecord.t) :
  r <> EmptyString ->
  NoDup (map Station.station_id stations) ->
  In a (list_alerts stations alerts (Some r) since) ->
  exists s,
    get_station stations (AlertRecord.station_id a) = Found s
    /\ In s stations
    /\ Station.region s = r.
Proof.
  intros Hr ND I.
  assert (R : resolves_in stations r a).
  { unfold list_alerts in I. rewrite truthy_given in I by congruence.
    destruct since as [t|]; [apply filter_In in I as [I _]|];
      apply filter_In in I as [_ I]; apply resolves_existsb, I. }
  destruct R as (s & Is & Id & Reg).
  unfold get_station.
  destruct (find (fun s' => String.eqb (Station.station_id s')
                              (AlertRecord.station_id a)) stations)
    as [s0|] eqn:F.
  - apply find_some in F as [I0 E0]. apply String.eqb_eq in E0.
    assert (s0 = s) as -> by (apply (unique_key Station.station_id stations);
                              congruence).
    exists s. auto.
  - pose proof (find_none _ _ F s Is) as N. cbn in N.
    apply String.eqb_neq in N. contradiction.
Qed.

Lemma listed_alert_station_found_witness :
  exists s,
    get_station _STATIONS (AlertRecord.station_id (hd dangling_alert (_ALERTS T0)))
    = Found s
    /\ In s _STATIONS
    /\ Station.region s = "Delhi NCR"%string.
Proof.
  apply (listed_alert_station_found _STATIONS (dangling_alert :: _ALERTS T0)
           "Delhi NCR" (Some T0) (hd dangling_alert (_ALERTS T0))).
  - discriminate.
  - cbn. repeat constructor; cbn; intuition discriminate.
  - cbn. left. reflexivity.
Defined.

Lemma firstn_plus {A} (a b : nat) (xs : list A) :
  firstn (a + b) xs = firstn a xs ++ firstn b (skipn a xs).
Proof.
  revert xs. induction a as [|a IH]; intros xs; [reflexivity|].
  destruct xs as [|x xs]; cbn; [rewrite firstn_nil; reflexivity|].
  rewrite IH. reflexivity.
Qed.

Lemma skipn_plus {A} (a b : nat) (xs : list A) :
  skipn (a + b) xs = skipn b (skipn a xs).
Proof.
  revert xs. induction a as [|a IH]; intros xs; [reflexivity|].
  destruct xs as [|x xs]; cbn; [rewrite skipn_nil; reflexivity|]. apply IH.
Qed.

(** Consecutive pages join up: the page of [l1] stations at [offset]
    followed by the page of [l2] stations at [offset + l1] is the page of
    [l1 + l2] stations at [offset]; no station is skipped or repeated. *)
Theorem list_stations_pages_join (stations : list Station.t)
    (region : option string) (l1 l2 offset : Z) :
  0 <= offset -> 0 <= l1 -> 0 <= l2 ->
  list_stations stations region l1 offset
  ++ list_stations stations region l2 (offset + l1)
  = list_stations stations region (l1 + l2) offset.
Proof.
  intros Ho H1 H2. unfold list_stations.
  set (results := match truthy region with
                  | Some r => filter (fun s => String.eqb (Station.region s) r) stations
                  | None => stations
                  end).
  rewrite !py_slice_page by lia.
  rewrite !Z2Nat.inj_add by lia. rewrite firstn_plus, skipn_plus. reflexivity.
Qed.

Lemma list_stations_pages_join_witness :
  list_stations _STATIONS (Some "Delhi NCR"%string) 1 0
  ++ list_stations _STATIONS (Some "Delhi NCR"%string) 1 (0 + 1)
  = list_stations _STATIONS (Some "Delhi NCR"%string) (1 + 1) 0.
Proof.
  apply (list_stations_pages_join _STATIONS (Some "Delhi NCR"%string) 1 1 0); lia.
Defined.

Lemma py_slice_incl {A} (xs : list A) (lo hi : Z) (x : A) :
  In x (py_slice xs lo hi) -> In x xs.
Proof.
  unfold py_slice. intros I.
  set (n := Z.to_nat (slice_index (Z.of_nat (length xs)) lo)) in *.
  set (k := Z.to_nat _) in I.
  rewrite <- (firstn_skipn n xs). apply in_or_app. right.
  rewrite <- (firstn_skipn k (skipn n xs)). apply in_or_app. left. exact I.
Qed.

Lemma py_slice_length {A} (xs : list A) (lo len : Z) :
  0 <= len -> (length (py_slice xs lo (lo + len)) <= Z.to_nat len)%nat.
Proof.
  intros Hl. unfold py_slice. rewrite length_firstn.
  apply Nat.le_trans with (1 := Nat.le_min_l _ _).
  set (n := Z.of_nat (length xs)).
  assert (D : slice_index n (lo + len) - slice_index n lo <= len).
  { unfold slice_index.
    destruct (Z.ltb_spec (lo + len) 0), (Z.ltb_spec lo 0); lia. }
  lia.
Qed.

(** For a non-negative limit and any offset, negative ones included,
    [list_stations] never returns more than [limit] stations; whatever the
    limit and offset, every station returned is in the collection and,
    when a non-empty region is given, lies in that region. *)
Theorem list_stations_bounded (stations : list Station.t)
    (region : option string) (limit offset : Z) :
  0 <= limit ->
  (length (list_stations stations region limit offset) <= Z.to_nat limit)%nat
  /\ forall s, In s (list_stations stations region limit offset) ->
       In s stations
       /\ forall r, region = Some r -> r <> EmptyString -> Station.region s = r.
Proof.
  intros Hl. split; [apply py_slice_length, Hl|].
  intros s I. unfold list_stations in I. apply py_slice_incl in I.
  destruct region as [r|]; cbn [truthy] in I.
  - destruct (String.eqb_spec r EmptyString) as [->|NE].
    + split; [exact I|]. intros r' [= <-] C. contradiction.
    + apply filter_In in I as [I R]. apply String.eqb_eq in R.
      split; [exact I|]. intros r' [= <-] _. exact R.
  - split; [exact I|]. intros r' [=].
Qed.

Lemma list_stations_bounded_witness :
  (length (list_stations _STATIONS (Some "Delhi NCR"%string) 1 (-2)) <= Z.to_nat 1)%nat
  /\ forall s, In s (list_stations _STATIONS (Some "Delhi NCR"%string) 1 (-2)) ->
       In s _STATIONS
       /\ forall r, Some "Delhi NCR"%string = Some r -> r <> EmptyString ->
                    Station.region s = r.
Proof.
  apply (list_stations_bounded _STATIONS (Some "Delhi NCR"%string) 1 (-2)). lia.
Defined.

(** A limit of [-1] is not rejected: at offset 0 it returns every matching
    station but the last, as the slice [results[0:-1]] does. *)
Theorem list_stations_negative_limit (stations : list Station.t) :
  list_stations stations None (-1) 0 = removelast stations.
Proof.
  unfold list_stations, py_slice, slice_index. cbn [truthy].
  change (0 <? 0) with false. change (0 + -1 <? 0) with true. cbv iota.
  rewrite removelast_firstn_len. cbn [skipn Z.to_nat].
  rewrite Z.min_l by lia. f_equal. lia.
Qed.

(** With station ids that are unique, looking up the id of any station
    that [list_stations] returns gives back that very station. *)
Theorem listed_station_found (stations : list Station.t)
    (region : option string) (limit offset : Z) (s : Station.t) :
  NoDup (map Station.station_id stations) ->
  In s (list_stations stations region limit offset) ->
  get_station stations (Station.station_id s) = Found s.
Proof.
  intros ND I.
  assert (Is : In s stations).
  { unfold list_stations in I. apply py_slice_incl in I.
    destruct (truthy region); [apply filter_In in I as [I _]|]; exact I. }
  unfold get_station.
  destruct (find (fun s' => String.eqb (Station.station_id s')
                              (Station.station_id s)) stations)
    as [s0|] eqn:F.
  - apply find_some in F as [I0 E0]. apply String.eqb_eq in E0.
    rewrite (unique_key Station.station_id stations s0 s ND I0 Is E0).
    reflexivity.
  - pose proof (find_none _ _ F s Is) as N. cbn in N.
    rewrite String.eqb_refl in N. discriminate N.
Qed.

Lemma listed_station_found_witness :
  get_station _STATIONS
    (Station.station_id (hd (Station.mk "" "" 0 0 "" [] None) (skipn 1 _STATIONS)))
  = Found (hd (Station.mk "" "" 0 0 "" [] None) (skipn 1 _STATIONS)).
Proof.
  apply (listed_station_found _STATIONS (Some "Delhi NCR"%string) 1 1
           (hd (Station.mk "" "" 0 0 "" [] None) (skipn 1 _STATIONS))).
  - cbn. repeat constructor; cbn; intuition discriminate.
  - cbn. left. reflexivity.
Defined.

(** ** Alert cutoffs *)

(** Moving the cutoff later only removes alerts: the alerts listed for a
    later cutoff are among those listed for an earlier one, and listing
    with the later cutoff over the earlier result gives the same answer as
    listing with it over all alerts. *)
Theorem list_alerts_later_cutoff (stations : list Station.t)
    (alerts : list AlertRecord.t) (region : option string) (t1 t2 : datetime) :
  t1 <= t2 ->
  incl (list_alerts stations alerts region (Some t2))
       (list_alerts stations alerts region (Some t1))
  /\ list_alerts stations (list_alerts stations alerts region (Some t1))
       region (Some t2)
     = list_alerts stations alerts region (Some t2).
Proof.
  intros Ht. unfold list_alerts.
  set (out := fun xs : list AlertRecord.t =>
                match truthy region with
                | Some r =>
                    filter
                      (fun a =>
                         existsb
                           (fun s => String.eqb (Station.region s) r
                                     && String.eqb (Station.station_id s)
                                          (AlertRecord.station_id a))
                           stations) xs
                | None => xs
                end).
  change (incl (filter (fun a => t2 <=? AlertRecord.ts a) (out alerts))
               (filter (fun a => t1 <=? AlertRecord.ts a) (out alerts))
          /\ filter (fun a => t2 <=? AlertRecord.ts a)
               (out (filter (fun a => t1 <=? AlertRecord.ts a) (out alerts)))
             = filter (fun a => t2 <=? AlertRecord.ts a) (out alerts)).
  split.
  - intros a I. apply filter_In in I as [I T]. apply filter_In.
    split; [exact I|]. apply Z.leb_le in T. apply Z.leb_le. lia.
  - unfold out. destruct (truthy region) as [r|]; rewrite !filter_twice;
      apply filter_ext; intros a;
      destruct (t1 <=? AlertRecord.ts a) eqn:E1,
               (t2 <=? AlertRecord.ts a) eqn:E2;
      rewrite ?andb_true_r, ?andb_false_r, ?andb_diag; try reflexivity;
      apply Z.leb_le in E2; apply Z.leb_gt in E1; lia.
Qed.

Lemma list_alerts_later_cutoff_witness :
  incl (list_alerts _STATIONS (dangling_alert :: _ALERTS T0) None (Some (T0 + 1)))
       (list_alerts _STATIONS (dangling_alert :: _ALERTS T0) None (Some T0))
  /\ list_alerts _STATIONS
       (list_alerts _STATIONS (dangling_alert :: _ALERTS T0) None (Some T0))
       None (Some (T0 + 1))
     = list_alerts _STATIONS (dangling_alert :: _ALERTS T0) None (Some (T0 + 1)).
Proof.
  apply (list_alerts_later_cutoff _STATIONS (dangling_alert :: _ALERTS T0) None
           T0 (T0 + 1)).
  lia.
Defined.

(** ** Horizons and windows *)

Lemma range_nonpositive (n : Z) : n <= 0 -> range n = [].
Proof.
  intros H. unfold range. replace (Z.to_nat n) with 0%nat by lia. reflexivity.
Qed.

(** A horizon of zero or fewer hours yields an empty forecast, and a
    window below zero an empty series; neither touches the clock or the
    random source. *)
Theorem generators_empty_span (math_sin to_double : Q -> Q) (st p : string)
    (hours : Z) (w : World) :
  hours < 0 ->
  generate_forecasts math_sin st p hours w = (Ok [], w)
  /\ generate_forecasts math_sin st p 0 w = (Ok [], w)
  /\ generate_timeseries to_double (Some st) p hours w = (Ok [], w).
Proof.
  intros H. unfold generate_forecasts, generate_timeseries, range_down.
  rewrite !range_nonpositive by lia. repeat split; reflexivity.
Qed.

Lemma generators_empty_span_witness :
  generate_forecasts sample_sin "ST-DEL-001" "PM2.5" (-3) sample_world
  = (Ok [], sample_world)
  /\ generate_forecasts sample_sin "ST-DEL-001" "PM2.5" 0 sample_world
     = (Ok [], sample_world)
  /\ generate_timeseries nearest_double (Some "ST-DEL-001"%string) "PM2.5" (-3)
       sample_world
     = (Ok [], sample_world).
Proof.
  apply (generators_empty_span sample_sin nearest_double "ST-DEL-001" "PM2.5"
           (-3) sample_world).
  lia.
Defined.

(** The forecast endpoint knows two horizons: "7d" gives 168 points and
    "72h" gives 72; every other horizon text gives 24 points and is echoed
    unchanged in the response.  The station defaults to the first seeded
    one when the id is absent or empty. *)
Theorem get_forecasts_horizon (math_sin : Q -> Q) (st : option string)
    (p horizon : string) (w : World) :
  exists resp,
    get_forecasts math_sin st p horizon w
    = (Ok resp, advance (Z.to_nat (horizon_hours horizon))
                  (Z.to_nat (horizon_hours horizon)) w)
    /\ Z.of_nat (length (ForecastResponse.forecasts resp)) = horizon_hours horizon
    /\ ForecastResponse.horizon resp = horizon
    /\ ForecastResponse.pollutant resp = p
    /\ (horizon_hours horizon = 168 <-> horizon = "7d"%string)
    /\ (horizon_hours horizon = 72 <-> horizon = "72h"%string)
    /\ (horizon <> "7d"%string -> horizon <> "72h"%string ->
        horizon_hours horizon = 24)
    /\ (st = None \/ st = Some EmptyString ->
        ForecastResponse.station_id resp = "ST-DEL-001"%string)
    /\ (forall s, st = Some s -> s <> EmptyString ->
        ForecastResponse.station_id resp = s).
Proof.
  eexists. split.
  { unfold get_forecasts, bind. rewrite generate_forecasts_runs. reflexivity. }
  cbn [ForecastResponse.forecasts ForecastResponse.horizon
         ForecastResponse.pollutant ForecastResponse.station_id].
  assert (HH : (horizon = "7d"%string /\ horizon_hours horizon = 168)
               \/ (horizon = "72h"%string /\ horizon_hours horizon = 72)
               \/ (horizon <> "7d"%string /\ horizon <> "72h"%string
                   /\ horizon_hours horizon = 24)).
  { unfold horizon_hours.
    destruct (String.eqb_spec horizon "7d") as [->|N1]; [left; auto|].
    destruct (String.eqb_spec horizon "72h") as [->|N2]; [right; left; auto|].
    right; right; auto. }
  split.
  { rewrite trace_length, range_length.
    destruct HH as [[_ ->]|[[_ ->]|(_ & _ & ->)]]; reflexivity. }
  split; [reflexivity|]. split; [reflexivity|].
  split.
  { destruct HH as [[-> E]|[[-> E]|(N1 & N2 & E)]]; rewrite E;
      split; intros H; try discriminate H; try reflexivity; congruence. }
  split.
  { destruct HH as [[-> E]|[[-> E]|(N1 & N2 & E)]]; rewrite E;
      split; intros H; try discriminate H; try reflexivity; congruence. }
  split.
  { intros N1 N2. destruct HH as [[-> _]|[[-> _]|(_ & _ & E)]]; congruence. }
  split.
  - intros [->| ->]; reflexivity.
  - intros s -> NE. unfold default_station. cbn [truthy].
    destruct (String.eqb_spec s EmptyString); [contradiction | reflexivity].
Qed.

(** ** Ranges of the generated values *)

Lemma unit_sin_bounded : bounded_sin unit_sin.
Proof.
  intros x. unfold unit_sin.
  destruct (Qle_bool (sample_sin x) (-1)) eqn:A; [split; lra|].
  destruct (Qle_bool 1 (sample_sin x)) eqn:B; [split; lra|].
  split; apply Qlt_le_weak, Qnot_le_lt; intros H; apply Qle_bool_iff in H;
    congruence.
Qed.

Lemma forecast_base_cases (p : string) :
  forecast_base p = 80%Q \/ forecast_base p = 30%Q.
Proof. unfold forecast_base. destruct (startswith (upper p) "PM"); auto. Qed.

Lemma forecast_item_range (math_sin : Q -> Q) (a b : Z) (base : Q) (h : Z)
    (w : World) :
  bounded_sin math_sin -> valid_random w ->
  (a # 100 == base - 10)%Q -> (b # 100 == base + 16)%Q -> (20 <= base)%Q ->
  let pt := forecast_item math_sin base h w in
  (base - 10 <= ForecastPoint.value pt)%Q
  /\ (ForecastPoint.value pt <= base + 16)%Q
  /\ (ForecastPoint.ci_lower pt == ForecastPoint.value pt - 8)%Q
  /\ (ForecastPoint.ci_upper pt == ForecastPoint.value pt + 8)%Q.
Proof.
  intros S V Ea Eb L pt.
  destruct (forecast_item_band math_sin base h w) as [_ (_ & U & Lw)].
  fold pt in U, Lw.
  assert (R : (base - 10 <= ForecastPoint.value pt)%Q
              /\ (ForecastPoint.value pt <= base + 16)%Q).
  { unfold pt, forecast_item; cbn [ForecastPoint.value].
    set (x := (base + _)%Q).
    destruct (S (inject_Z h / 6)%Q) as [S0 S1].
    destruct (V (draws w)) as [V0 V1].
    assert (X0 : (base - 10 <= x)%Q) by (unfold x; lra).
    assert (X1 : (x <= base + 16)%Q) by (unfold x; lra).
    destruct (round2_between a b x) as [B0 B1];
      [rewrite Ea; exact X0 | rewrite Eb; exact X1 |].
    rewrite Ea in B0. rewrite Eb in B1.
    destruct (py_max_0_cases (round2 x)) as [[A ->]|[A ->]]; split; lra. }
  destruct R as [R0 R1]. repeat split; try assumption.
  destruct (py_max_0_cases (ForecastPoint.value pt - 8)) as [[A B]|[A B]];
    rewrite B in Lw; lra.
Qed.

(** For an oscillation term within the range of the sine and draws from
    the random source, every forecast value lies between the baseline
    minus 10 and the baseline plus 16 (70 to 96 for particulate labels, 20
    to 46 for the others), so neither floor at zero is ever active: the
    band is exactly the value minus 8 to the value plus 8, 16 units wide. *)
Theorem forecast_values_in_range (math_sin : Q -> Q) (st p : string) (N : Z)
    (w : World) :
  bounded_sin math_sin ->
  valid_random w ->
  exists pts w',
    generate_forecasts math_sin st p N w = (Ok pts, w')
    /\ (forecast_base p = 80%Q \/ forecast_base p = 30%Q)
    /\ Forall
         (fun pt =>
            (forecast_base p - 10 <= ForecastPoint.value pt)%Q
            /\ (ForecastPoint.value pt <= forecast_base p + 16)%Q
            /\ (ForecastPoint.ci_lower pt == ForecastPoint.value pt - 8)%Q
            /\ (ForecastPoint.ci_upper pt == ForecastPoint.value pt + 8)%Q
            /\ (ForecastPoint.ci_upper pt - ForecastPoint.ci_lower pt == 16)%Q)
         pts.
Proof.
  intros S V. eexists. eexists. split; [apply generate_forecasts_runs|].
  split; [apply forecast_base_cases|].
  assert (G : forall (h : Z) (w' : World), valid_random w' ->
            let pt := forecast_item math_sin (forecast_base p) h w' in
            (forecast_base p - 10 <= ForecastPoint.value pt)%Q
            /\ (ForecastPoint.value pt <= forecast_base p + 16)%Q
            /\ (ForecastPoint.ci_lower pt == ForecastPoint.value pt - 8)%Q
            /\ (ForecastPoint.ci_upper pt == ForecastPoint.value pt + 8)%Q
            /\ (ForecastPoint.ci_upper pt - ForecastPoint.ci_lower pt == 16)%Q).
  { intros h w' V'. cbv zeta.
    assert (R : let pt := forecast_item math_sin (forecast_base p) h w' in
                (forecast_base p - 10 <= ForecastPoint.value pt)%Q
                /\ (ForecastPoint.value pt <= forecast_base p + 16)%Q
                /\ (ForecastPoint.ci_lower pt == ForecastPoint.value pt - 8)%Q
                /\ (ForecastPoint.ci_upper pt == ForecastPoint.value pt + 8)%Q).
    { destruct (forecast_base_cases p) as [E|E]; rewrite E.
      - apply (forecast_item_range math_sin 7000 9600 80 h w' S V');
          [reflexivity | reflexivity | lra].
      - apply (forecast_item_range math_sin 2000 4600 30 h w' S V');
          [reflexivity | reflexivity | lra]. }
    cbv zeta in R. destruct R as (R0 & R1 & R2 & R3).
    repeat split; try assumption. rewrite R2, R3. ring. }
  generalize (range N). intros hs. revert w V.
  induction hs as [|h hs IH]; intros w V; cbn [trace]; constructor.
  - apply G, V.
  - apply IH. intros k. apply V.
Qed.

Lemma forecast_values_in_range_witness :
  exists pts w',
    generate_forecasts unit_sin "ST-DEL-001" "PM2.5" 24 sample_world = (Ok pts, w')
    /\ (forecast_base "PM2.5" = 80%Q \/ forecast_base "PM2.5" = 30%Q)
    /\ Forall
         (fun pt =>
            (forecast_base "PM2.5" - 10 <= ForecastPoint.value pt)%Q
            /\ (ForecastPoint.value pt <= forecast_base "PM2.5" + 16)%Q
            /\ (ForecastPoint.ci_lower pt == ForecastPoint.value pt - 8)%Q
            /\ (ForecastPoint.ci_upper pt == ForecastPoint.value pt + 8)%Q
            /\ (ForecastPoint.ci_upper pt - ForecastPoint.ci_lower pt == 16)%Q)
         pts.
Proof.
  apply (forecast_values_in_range unit_sin "ST-DEL-001" "PM2.5" 24 sample_world).
  - exact unit_sin_bounded.
  - exact sample_world_valid.
Defined.

Lemma trace_Forall_inv {A B} (g : A -> World -> B) (step : World -> World)
    (Inv : World -> Prop) (P : B -> Prop) (xs : list A) (w : World) :
  (forall w', Inv w' -> Inv (step w')) ->
  (forall x w', Inv w' -> P (g x w')) ->
  Inv w -> Forall P (trace g step xs w).
Proof.
  intros St Pg. revert w.
  induction xs as [|x xs IH]; intros w I; cbn [trace]; constructor; auto.
Qed.

(** The risk summary stamps the clock reading taken at the call, falls
    back to the region "Delhi NCR" when none or an empty one is given, and
    carries one record for each of PM2.5, PM10, NO2 and O3, in that order,
    with thresholds 50, 50, 40 and 40; for draws from the random source
    every score is a two-decimal value between 10 and 90. *)
Theorem risk_summary_records (region : option string) (w : World) :
  valid_random w ->
  exists resp,
    get_risk_summary region w = (Ok resp, advance 1 4 w)
    /\ RiskSummaryResponse.timestamp resp = utc w (reads w)
    /\ (region = None \/ region = Some EmptyString ->
        RiskSummaryResponse.region resp = "Delhi NCR"%string)
    /\ (forall r, region = Some r -> r <> EmptyString ->
        RiskSummaryResponse.region resp = r)
    /\ map RiskScore.pollutant (RiskSummaryResponse.risk_scores resp)
       = ["PM2.5"; "PM10"; "NO2"; "O3"]%string
    /\ map RiskScore.threshold_used (RiskSummaryResponse.risk_scores resp)
       = [50; 50; 40; 40]%Q
    /\ Forall
         (fun s =>
            (10 <= RiskScore.score_0_100 s)%Q
            /\ (RiskScore.score_0_100 s <= 90)%Q
            /\ is_cent (RiskScore.score_0_100 s))
         (RiskSummaryResponse.risk_scores resp).
Proof.
  intros V. eexists. split.
  { unfold get_risk_summary, bind at 1. cbn [utcnow]. unfold bind.
    rewrite generate_risk_scores_runs. reflexivity. }
  cbn [RiskSummaryResponse.timestamp RiskSummaryResponse.region
         RiskSummaryResponse.risk_scores].
  split; [reflexivity|]. split; [intros [->| ->]; reflexivity|]. split.
  { intros r -> NE. cbn [truthy].
    destruct (String.eqb_spec r EmptyString); [contradiction | reflexivity]. }
  split; [reflexivity|]. split; [reflexivity|].
  apply (trace_Forall_inv _ _ valid_random).
  - intros w' V' k. apply V'.
  - intros pollutant w' V'. cbn [risk_item RiskScore.score_0_100].
    destruct (V' (draws w')) as [V0 V1].
    destruct (round2_between 1000 9000 (10 + (90 - 10) * rnd w' (draws w')))
      as [B0 B1]; [lra | lra |].
    repeat split; [lra | lra | apply round2_is_cent].
  - intros k. apply V.
Qed.

Lemma risk_summary_records_witness :
  exists resp,
    get_risk_summary None sample_world = (Ok resp, advance 1 4 sample_world)
    /\ RiskSummaryResponse.timestamp resp = utc sample_world (reads sample_world)
    /\ (@None string = None \/ None = Some EmptyString ->
        RiskSummaryResponse.region resp = "Delhi NCR"%string)
    /\ (forall r, None = Some r -> r <> EmptyString ->
        RiskSummaryResponse.region resp = r)
    /\ map RiskScore.pollutant (RiskSummaryResponse.risk_scores resp)
       = ["PM2.5"; "PM10"; "NO2"; "O3"]%string
    /\ map RiskScore.threshold_used (RiskSummaryResponse.risk_scores resp)
       = [50; 50; 40; 40]%Q
    /\ Forall
         (fun s =>
            (10 <= RiskScore.score_0_100 s)%Q
            /\ (RiskScore.score_0_100 s <= 90)%Q
            /\ is_cent (RiskScore.score_0_100 s))
         (RiskSummaryResponse.risk_scores resp).
Proof.
  apply (risk_summary_records None sample_world). exact sample_world_valid.
Defined.

Lemma share_in_range (v total : Q) :
  (10 <= v)%Q -> (v <= 40)%Q -> (v + 40 <= total)%Q -> (total <= v + 160)%Q ->
  (588 # 100 <= round2 (v / total * 100))%Q
  /\ (round2 (v / total * 100) <= 50)%Q.
Proof.
  intros Hv Hv' Lo Hi.
  assert (P : (0 < total)%Q) by lra.
  set (x := (v / total)%Q).
  assert (X : (x * total == v)%Q) by (unfold x; field; lra).
  assert (X0 : (588 # 10000 <= x)%Q).
  { apply (Qmult_le_r _ _ total P). rewrite X. lra. }
  assert (X1 : (x <= 1 # 2)%Q).
  { apply (Qmult_le_r _ _ total P). rewrite X. lra. }
  destruct (round2_between 588 5000 (x * 100)) as [B0 B1]; [lra | lra |].
  split; lra.
Qed.

Lemma shares_in_range (m0 m1 m2 m3 m4 : Q) :
  Forall (fun v => 10 <= v /\ v < 40)%Q [m0; m1; m2; m3; m4] ->
  Forall (fun v => (588 # 100 <= round2 (v / py_sum [m0; m1; m2; m3; m4] * 100))%Q
                   /\ (round2 (v / py_sum [m0; m1; m2; m3; m4] * 100) <= 50)%Q)
    [m0; m1; m2; m3; m4].
Proof.
  intros F.
  assert (T : (py_sum [m0; m1; m2; m3; m4] == m0 + m1 + m2 + m3 + m4)%Q).
  { unfold py_sum. cbn [fold_left]. ring. }
  set (total := py_sum _) in *.
  inversion F as [|? ? [A0 B0] F1]; subst.
  inversion F1 as [|? ? [A1 B1] F2]; subst.
  inversion F2 as [|? ? [A2 B2] F3]; subst.
  inversion F3 as [|? ? [A3 B3] F4]; subst.
  inversion F4 as [|? ? [A4 B4] _]; subst.
  repeat constructor; apply share_in_range; lra.
Qed.

Lemma magnitudes_in_range (w : World) :
  valid_random w -> Forall (fun v => 10 <= v /\ v < 40)%Q (magnitudes w).
Proof.
  intros V. unfold magnitudes. apply Forall_map, Forall_forall. intros k _.
  destruct (V (k + draws w)%nat). split; lra.
Qed.

(** For draws from the random source the reported total lies between 50
    and 200, the sources appear in their fixed order, and every source's
    share lies between 5.88 and 50 percent: no source can dominate the
    breakdown or vanish from it. *)
Theorem attribution_share_bounds (p : string) (w : World) :
  valid_random w ->
  exists resp w',
    generate_attribution p w = (Ok resp, w')
    /\ AttributionResponse.pollutant resp = p
    /\ (50 <= AttributionResponse.total resp)%Q
    /\ (AttributionResponse.total resp <= 200)%Q
    /\ map AttributionBreakdown.source (AttributionResponse.breakdown resp)
       = attribution_sources
    /\ Forall
         (fun b =>
            (588 # 100 <= AttributionBreakdown.contribution_percent b)%Q
            /\ (AttributionBreakdown.contribution_percent b <= 50)%Q)
         (AttributionResponse.breakdown resp).
Proof.
  intros V. eexists. eexists. split; [apply generate_attribution_runs, V|].
  cbn [AttributionResponse.pollutant AttributionResponse.total
         AttributionResponse.breakdown].
  pose proof (magnitudes_in_range w V) as F.
  pose proof (magnitudes_total w V) as T.
  split; [reflexivity|].
  assert (Up : (py_sum (magnitudes w) <= 200)%Q).
  { unfold py_sum. rewrite py_sum_fold_right.
    cbn [magnitudes map seq fold_right].
    pose proof (V (0 + draws w)%nat) as [_ ?].
    pose proof (V (1 + draws w)%nat) as [_ ?].
    pose proof (V (2 + draws w)%nat) as [_ ?].
    pose proof (V (3 + draws w)%nat) as [_ ?].
    pose proof (V (4 + draws w)%nat) as [_ ?]. lra. }
  destruct (round2_between 5000 20000 (py_sum (magnitudes w))) as [B0 B1];
    [lra | lra |].
  split; [lra|]. split; [lra|]. split; [reflexivity|].
  apply Forall_forall. intros b Ib.
  pose proof (in_map AttributionBreakdown.contribution_percent _ _ Ib) as Ip.
  rewrite breakdown_percents in Ip by apply magnitudes_length.
  apply in_map_iff in Ip as (v & <- & Iv).
  pose proof (shares_in_range _ _ _ _ _ F) as SF.
  change [10 + (40 - 10) * rnd w (0 + draws w);
          10 + (40 - 10) * rnd w (1 + draws w);
          10 + (40 - 10) * rnd w (2 + draws w);
          10 + (40 - 10) * rnd w (3 + draws w);
          10 + (40 - 10) * rnd w (4 + draws w)]%Q with (magnitudes w) in SF.
  rewrite Forall_forall in SF. apply SF, Iv.
Qed.

Lemma attribution_share_bounds_witness :
  exists resp w',
    generate_attribution "PM2.5" sample_world = (Ok resp, w')
    /\ AttributionResponse.pollutant resp = "PM2.5"%string
    /\ (50 <= AttributionResponse.total resp)%Q
    /\ (AttributionResponse.total resp <= 200)%Q
    /\ map AttributionBreakdown.source (AttributionResponse.breakdown resp)
       = attribution_sources
    /\ Forall
         (fun b =>
            (588 # 100 <= AttributionBreakdown.contribution_percent b)%Q
            /\ (AttributionBreakdown.contribution_percent b <= 50)%Q)
         (AttributionResponse.breakdown resp).
Proof.
  apply (attribution_share_bounds "PM2.5" sample_world).
  exact sample_world_valid.
Defined.

(** ** Chart geometry *)

Lemma stack_adjacent (items : list (string * Q)) (left : Q) (i : nat)
    (seg seg' : Q * Q * string) :
  nth_error (stack left items) i = Some seg ->
  nth_error (stack left items) (S i) = Some seg' ->
  fst (fst seg') = (fst (fst seg) + snd (fst seg))%Q.
Proof.
  revert left i. induction items as [|[s v] items IH]; intros left i H H';
    [destruct i; discriminate H|].
  destruct i as [|i].
  - cbn in H. injection H as <-.
    destruct items as [|[s1 v1] items]; cbn in H'; [discriminate H'|].
    injection H' as <-. reflexivity.
  - cbn [stack nth_error] in H, H'. exact (IH _ _ H H').
Qed.

Lemma stack_end (items : list (string * Q)) (left : Q) :
  items <> [] ->
  exists seg,
    nth_error (stack left items) (length items - 1) = Some seg
    /\ (fst (fst seg) + snd (fst seg)
        == left + fold_right Qplus 0 (map snd items))%Q.
Proof.
  revert left. induction items as [|[s v] items IH]; intros left NE;
    [congruence|].
  destruct items as [|sv items].
  - eexists. split; [reflexivity|]. cbn. ring.
  - destruct (IH (left + v)%Q ltac:(discriminate)) as (seg & N & E).
    exists seg. split.
    + cbn [length] in N |- *.
      rewrite ?Nat.sub_succ, ?Nat.sub_0_r in N |- *. exact N.
    + rewrite E. cbn [map fold_right snd]. ring.
Qed.

(** In the stacked bar of an attribution response the five segments are
    laid end to end in source order: the first starts at 0, each next one
    starts where the previous one ends, and the last one ends within 0.025
    of 100, which can lie slightly beyond the axis limit of 100. *)
Theorem attribution_bar_layout (p : string) (w : World) :
  valid_random w ->
  exists bar w',
    viz_attribution_png p w = (Ok bar, w')
    /\ length (Bar.segments bar) = 5%nat
    /\ map (fun seg : Q * Q * string => snd seg) (Bar.segments bar)
       = attribution_sources
    /\ (exists wd s, nth_error (Bar.segments bar) 0 = Some (0%Q, wd, s))
    /\ (forall i seg seg',
          nth_error (Bar.segments bar) i = Some seg ->
          nth_error (Bar.segments bar) (S i) = Some seg' ->
          fst (fst seg') = (fst (fst seg) + snd (fst seg))%Q)
    /\ (exists seg,
          nth_error (Bar.segments bar) 4 = Some seg
          /\ (Qabs (fst (fst seg) + snd (fst seg) - 100) <= 1 # 40)%Q).
Proof.
  intros V. eexists. eexists. split.
  { unfold viz_attribution_png, bind.
    rewrite (generate_attribution_runs _ _ V). reflexivity. }
  cbn [AttributionResponse.breakdown].
  set (b := map (share (py_sum (magnitudes w)))
              (combine attribution_sources (magnitudes w))).
  split; [reflexivity|].
  split; [apply (proj2 (bar_segments b _))|].
  split; [eexists; eexists; reflexivity|].
  unfold _attribution_png; cbn [Bar.segments]. rewrite combine_maps.
  set (items := map _ b).
  split; [intros i seg seg'; apply stack_adjacent|].
  destruct (stack_end items 0) as (seg & N & E); [discriminate|].
  exists seg. split; [exact N|].
  assert (W : map snd items
              = map (fun v => round2 (v / py_sum (magnitudes w) * 100))
                  (magnitudes w)).
  { unfold items. rewrite map_map. cbn [snd].
    apply breakdown_percents, magnitudes_length. }
  pose proof (magnitudes_total w V) as T.
  assert (NZ : ~ (py_sum (magnitudes w) == 0)%Q) by lra.
  pose proof (percent_shares_sum (magnitudes w) NZ) as S.
  rewrite magnitudes_length in S.
  change (inject_Z (Z.of_nat 5)) with 5%Q in S.
  unfold py_sum at 1 in S. rewrite py_sum_fold_right, <- W in S.
  apply Qabs_Qle_condition in S. apply Qabs_Qle_condition. rewrite E.
  destruct S. split; lra.
Qed.

Lemma attribution_bar_layout_witness :
  exists bar w',
    viz_attribution_png "PM2.5" sample_world = (Ok bar, w')
    /\ length (Bar.segments bar) = 5%nat
    /\ map (fun seg : Q * Q * string => snd seg) (Bar.segments bar)
       = attribution_sources
    /\ (exists wd s, nth_error (Bar.segments bar) 0 = Some (0%Q, wd, s))
    /\ (forall i seg seg',
          nth_error (Bar.segments bar) i = Some seg ->
          nth_error (Bar.segments bar) (S i) = Some seg' ->
          fst (fst seg') = (fst (fst seg) + snd (fst seg))%Q)
    /\ (exists seg,
          nth_error (Bar.segments bar) 4 = Some seg
          /\ (Qabs (fst (fst seg) + snd (fst seg) - 100) <= 1 # 40)%Q).
Proof.
  apply (attribution_bar_layout "PM2.5" sample_world). exact sample_world_valid.
Defined.

Lemma max_by_snoc {A} (key : A -> Q) (x : A) (xs : list A) (y : A) :
  max_by key x (xs ++ [y])
  = if Qle_bool (key y) (key (max_by key x xs)) then max_by key x xs else y.
Proof. unfold max_by. rewrite fold_left_app. reflexivity. Qed.

(** [max] with a key returns the first element whose key is largest. *)
Lemma max_by_first {A} (key : A -> Q) (x : A) (xs : list A) :
  exists before after,
    x :: xs = before ++ max_by key x xs :: after
    /\ (forall b, In b before -> (key b < key (max_by key x xs))%Q)
    /\ (forall a, In a after -> (key a <= key (max_by key x xs))%Q).
Proof.
  induction xs as [|y xs IH] using rev_ind.
  - exists [], []. repeat split; intros ? [].
  - destruct IH as (before & after & E & B & Af). rewrite max_by_snoc.
    set (m := max_by key x xs) in *.
    destruct (Qle_bool (key y) (key m)) eqn:C.
    + exists before, (after ++ [y]). split; [|split].
      * rewrite app_comm_cons, E, <- app_assoc. reflexivity.
      * exact B.
      * intros a I. apply in_app_or in I as [I|[<-|[]]]; [apply Af, I|].
        apply Qle_bool_iff, C.
    + assert (L : (key m < key y)%Q).
      { apply Qnot_le_lt. intros H. apply Qle_bool_iff in H. congruence. }
      exists (x :: xs), []. split; [|split].
      * rewrite app_comm_cons. reflexivity.
      * intros b I. rewrite E in I.
        apply in_app_or in I as [I|[<-|I]].
        -- pose proof (B b I). lra.
        -- exact L.
        -- pose proof (Af b I). lra.
      * intros ? [].
Qed.

(** The dial shows the largest of the four scores: the image and the
    document carry the score of the first record that no other record
    exceeds, and the document is labelled with that record's pollutant. *)
Theorem dial_shows_top_score (region : string) (w : World) :
  exists scores w' dial ddoc,
    generate_risk_scores region w = (Ok scores, w')
    /\ viz_risk_dial_png region w = (Ok dial, w')
    /\ viz_risk_dial_json region w = (Ok ddoc, w')
    /\ exists before top after,
         scores = before ++ top :: after
         /\ DialDoc.value ddoc = RiskScore.score_0_100 top
         /\ DialDoc.label ddoc = RiskScore.pollutant top
         /\ Dial.needle dial = (180 - 180 * (RiskScore.score_0_100 top / 100))%Q
         /\ Dial.text dial = round_half_even (RiskScore.score_0_100 top)
         /\ (forall s, In s before ->
               (RiskScore.score_0_100 s < RiskScore.score_0_100 top)%Q)
         /\ (forall s, In s after ->
               (RiskScore.score_0_100 s <= RiskScore.score_0_100 top)%Q).
Proof.
  eexists. eexists. eexists. eexists.
  split; [apply generate_risk_scores_runs|].
  split; [unfold viz_risk_dial_png, bind;
          rewrite generate_risk_scores_runs; reflexivity|].
  split; [unfold viz_risk_dial_json, bind;
          rewrite generate_risk_scores_runs; reflexivity|].
  set (s0 := risk_item "PM2.5" w).
  set (ss := trace risk_item drew ["PM10"; "NO2"; "O3"]%string (drew w)).
  destruct (max_by_first RiskScore.score_0_100 s0 ss) as (before & after & E & B & Af).
  exists before, (max_by RiskScore.score_0_100 s0 ss), after.
  split; [exact E|]. split; [reflexivity|]. split; [reflexivity|].
  cbn [Dial.needle Dial.text _risk_dial_png].
  split; [rewrite max_by_key; reflexivity|].
  split; [rewrite max_by_key; reflexivity|].
  split; assumption.
Qed.

Lemma degrees_linear (x : Q) : (180 - 180 * (x / 100) == 180 - (9 # 5) * x)%Q.
Proof. field. Qed.

(** For a score between 0 and 100 the needle of the dial lies within the
    coloured sector that matches the score's category: green for "Low",
    yellow for "Moderate", red for "High". *)
Theorem dial_needle_in_sector (v : Q) (title : string) :
  (0 <= v)%Q -> (v <= 100)%Q ->
  exists th1 th2 color,
    nth_error (Dial.wedges (_risk_dial_png v title)) (sector_index v)
    = Some (th1, th2, color)
    /\ (th1 <= Dial.needle (_risk_dial_png v title))%Q
    /\ (Dial.needle (_risk_dial_png v title) <= th2)%Q
    /\ (0 <= th1)%Q /\ (th2 <= 180)%Q
    /\ In (risk_category v, color)
         [("Low", "#2ca02c"); ("Moderate", "#ffcc00"); ("High", "#d62728")]%string.
Proof.
  intros H0 H100. unfold sector_index, risk_category.
  cbn [Dial.wedges Dial.needle _risk_dial_png dial_sectors map].
  destruct (Qlt_le_dec v 33) as [A|A]; [|destruct (Qlt_le_dec v 66) as [B|B]];
    eexists; eexists; eexists; (split; [reflexivity|]);
    rewrite !degrees_linear;
    (repeat split; [lra | lra | lra | lra | cbn; tauto]).
Qed.

Lemma dial_needle_in_sector_witness :
  exists th1 th2 color,
    nth_error (Dial.wedges (_risk_dial_png 72 "Risk")) (sector_index 72)
    = Some (th1, th2, color)
    /\ (th1 <= Dial.needle (_risk_dial_png 72 "Risk"))%Q
    /\ (Dial.needle (_risk_dial_png 72 "Risk") <= th2)%Q
    /\ (0 <= th1)%Q /\ (th2 <= 180)%Q
    /\ In (risk_category 72, color)
         [("Low", "#2ca02c"); ("Moderate", "#ffcc00"); ("High", "#d62728")]%string.
Proof.
  apply (dial_needle_in_sector 72 "Risk"); lra.
Defined.

(** ** Time-series windows *)

Lemma remove_char_clean (c : ascii) (s : string) :
  contains_char c (remove_char c s) = false.
Proof.
  induction s as [|d s IH]; [reflexivity|]. cbn [remove_char].
  destruct (Ascii.eqb d c) eqn:E; [exact IH|].
  cbn [contains_char]. rewrite E, IH. reflexivity.
Qed.

Lemma remove_char_suffix (c : ascii) (s : string) :
  contains_char c s = false ->
  remove_char c (s ++ String c EmptyString) = s.
Proof.
  induction s as [|d s IH]; intros H.
  - cbn. rewrite Ascii.eqb_refl. reflexivity.
  - cbn in H |- *. destruct (Ascii.eqb d c); [discriminate H|].
    cbn in H. rewrite (IH H). reflexivity.
Qed.

Lemma sample_span (N : Z) :
  0 <= N <= 1000 -> span_representable N sample_world.
Proof.
  intros H. apply span_from_first; [lia | exact sample_world_monotone | | ].
  - intros i Hi. cbn [utc reads sample_world]. unfold T0, datetime_max. lia.
  - cbn [utc reads sample_world]. unfold T0, datetime_min, timedelta, HOUR. lia.
Qed.

(** A window text without the letter "h" (such as "7d") is not read at
    all: the series covers the default of 48 hours.  When the 48 hours
    before the clock readings are representable timestamps the response
    carries 49 points; the only error the call can raise is the
    [OverflowError] of a timestamp that is not. *)
Theorem get_timeseries_default_window (py_int : string -> option Z)
    (to_double : Q -> Q) (st : option string) (p window : string) (w : World) :
  contains_char "h" window = false ->
  exists res w1,
    get_timeseries py_int to_double st p window w = (res, w1)
    /\ (span_representable 48 w ->
        exists resp,
          res = Ok resp
          /\ w1 = advance 49 49 w
          /\ length (TimeSeriesResponse.series resp) = 49%nat
          /\ TimeSeriesResponse.station_id resp = default_station st
          /\ TimeSeriesResponse.pollutant resp = p
          /\ TimeSeriesResponse.units resp = units_of p)
    /\ (forall e, res = Raise e -> e = OverflowError).
Proof.
  intros H.
  assert (E : get_timeseries py_int to_double st p window w
              = bind (generate_timeseries to_double (Some (default_station st)) p 48)
                  (fun series =>
                     ret (TimeSeriesResponse.mk (default_station st) p
                            (units_of p) series)) w).
  { unfold get_timeseries, bind at 1. unfold window_hours. rewrite H. reflexivity. }
  rewrite E. unfold bind.
  destruct (generate_timeseries to_double (Some (default_station st)) p 48 w)
    as [[series|e] w1] eqn:G; eexists; eexists; (split; [reflexivity|]).
  - split; [|intros e [=]].
    intros Span. rewrite (generate_timeseries_runs _ _ _ _ _ Span) in G.
    injection G as Es Ew. subst series w1. eexists. split; [reflexivity|].
    split; [reflexivity|].
    cbn [TimeSeriesResponse.series TimeSeriesResponse.station_id
           TimeSeriesResponse.pollutant TimeSeriesResponse.units].
    split; [reflexivity|]. repeat split.
  - split.
    + intros Span. rewrite (generate_timeseries_runs _ _ _ _ _ Span) in G.
      discriminate G.
    + intros e' [= <-]. unfold generate_timeseries in G.
      apply for_each_timeseries_outcome in G. exact G.
Qed.

Lemma get_timeseries_default_window_witness :
  exists res w1,
    get_timeseries sample_int nearest_double None "PM2.5" "7d" sample_world
    = (res, w1)
    /\ (span_representable 48 sample_world ->
        exists resp,
          res = Ok resp
          /\ w1 = advance 49 49 sample_world
          /\ length (TimeSeriesResponse.series resp) = 49%nat
          /\ TimeSeriesResponse.station_id resp = default_station None
          /\ TimeSeriesResponse.pollutant resp = "PM2.5"%string
          /\ TimeSeriesResponse.units resp = units_of "PM2.5")
    /\ (forall e, res = Raise e -> e = OverflowError).
Proof.
  apply (get_timeseries_default_window sample_int nearest_double None "PM2.5"
           "7d" sample_world).
  reflexivity.
Defined.

(** A window text that contains the letter "h" is read as an integer
    after every "h" has been dropped, wherever it stands (for digits
    followed by "h", the digits).  If that text is not an integer the
    endpoint raises [ValueError] before the clock or the random source is
    touched.  If it reads as [N]: a negative [N] gives an empty series;
    when the timestamps of the [N] hours before the clock readings are
    representable the series has [N + 1] points; and when the oldest one,
    the current time minus [N] hours, would precede [datetime.min] (as
    for "20000000h") the endpoint raises [OverflowError] after its first
    clock reading. *)
Theorem get_timeseries_hour_window (py_int : string -> option Z)
    (to_double : Q -> Q) (st : option string) (p window : string) (w : World) :
  contains_char "h" window = true ->
  contains_char "h" (remove_char "h" window) = false
  /\ (forall s, window = (s ++ "h")%string -> contains_char "h" s = false ->
        remove_char "h" window = s)
  /\ (py_int (remove_char "h" window) = None ->
      get_timeseries py_int to_double st p window w = (Raise ValueError, w))
  /\ (forall N, py_int (remove_char "h" window) = Some N ->
        (N < 0 ->
         exists resp,
           get_timeseries py_int to_double st p window w = (Ok resp, w)
           /\ TimeSeriesResponse.series resp = [])
        /\ (span_representable N w ->
            exists resp,
              get_timeseries py_int to_double st p window w
              = (Ok resp, advance (Z.to_nat (N + 1)) (Z.to_nat (N + 1)) w)
              /\ length (TimeSeriesResponse.series resp) = Z.to_nat (N + 1))
        /\ (0 <= N -> utc w (reads w) - timedelta N < datetime_min ->
            get_timeseries py_int to_double st p window w
            = (Raise OverflowError, advance 1 0 w))).
Proof.
  intros H. split; [apply remove_char_clean|]. split.
  { intros s -> Hs. apply remove_char_suffix, Hs. }
  split.
  - intros E. unfold get_timeseries, bind, window_hours. rewrite H, E. reflexivity.
  - intros N E.
    assert (G : get_timeseries py_int to_double st p window w
                = bind (generate_timeseries to_double (Some (default_station st)) p N)
                    (fun series =>
                       ret (TimeSeriesResponse.mk (default_station st) p
                              (units_of p) series)) w).
    { unfold get_timeseries, bind at 1. unfold window_hours. rewrite H, E.
      reflexivity. }
    rewrite G. unfold bind. split; [|split].
    + intros Neg. unfold generate_timeseries, range_down.
      rewrite range_nonpositive by lia. eexists. split; reflexivity.
    + intros Span. rewrite (generate_timeseries_runs _ _ _ _ _ Span).
      eexists. split; [reflexivity|].
      cbn [TimeSeriesResponse.series].
      rewrite trace_length, range_down_length. reflexivity.
    + intros HN Under. rewrite generate_timeseries_overflow; [reflexivity | exact HN |].
      unfold stamp_ok, representable.
      assert (L : (datetime_min <=? utc w (reads w) - timedelta N) = false)
        by (apply Z.leb_gt; exact Under).
      rewrite L. cbn [andb]. apply andb_false_r.
Qed.

Lemma get_timeseries_hour_window_witness :
  contains_char "h" (remove_char "h" "1h2h") = false
  /\ (forall s, "1h2h"%string = (s ++ "h")%string -> contains_char "h" s = false ->
        remove_char "h" "1h2h" = s)
  /\ (sample_int (remove_char "h" "1h2h") = None ->
      get_timeseries sample_int nearest_double None "NO2" "1h2h" sample_world
      = (Raise ValueError, sample_world))
  /\ (forall N, sample_int (remove_char "h" "1h2h") = Some N ->
        (N < 0 ->
         exists resp,
           get_timeseries sample_int nearest_double None "NO2" "1h2h" sample_world
           = (Ok resp, sample_world)
           /\ TimeSeriesResponse.series resp = [])
        /\ (span_representable N sample_world ->
            exists resp,
              get_timeseries sample_int nearest_double None "NO2" "1h2h"
                sample_world
              = (Ok resp,
                 advance (Z.to_nat (N + 1)) (Z.to_nat (N + 1)) sample_world)
              /\ length (TimeSeriesResponse.series resp) = Z.to_nat (N + 1))
        /\ (0 <= N ->
            utc sample_world (reads sample_world) - timedelta N < datetime_min ->
            get_timeseries sample_int nearest_double None "NO2" "1h2h" sample_world
            = (Raise OverflowError, advance 1 0 sample_world))).
Proof.
  apply (get_timeseries_hour_window sample_int nearest_double None "NO2" "1h2h"
           sample_world).
  reflexivity.
Defined.

(** A window of twenty million hours reaches back before year 1. *)
Example get_timeseries_overflow_window :
  get_timeseries sample_int nearest_double None "PM2.5" "20000000h" sample_world
  = (Raise OverflowError, advance 1 0 sample_world).
Proof.
  unfold get_timeseries, bind at 1.
  change (window_hours sample_int "20000000h" sample_world)
    with (Ok 20000000, sample_world).
  unfold bind. rewrite generate_timeseries_overflow; [reflexivity | lia |].
  reflexivity.
Qed.
